(** * Region middleware of the storefront: a shallow embedding of
      [src/middleware.ts] and the properties of its three functions

    The file embeds [getRegionMap] (the region directory cache),
    [getCountryCode] (country code resolution) and [middleware] (the redirect
    decision).  The second copy of the middleware shipped with the
    repository differs from [src/middleware.ts] by its logging and by one
    extra [else if (!countryCode)] branch; it is embedded as
    [middleware_verbose] and shown to compute the same function.

    Modelling choices.
    - JavaScript strings are [string]; [toLowerCase] is modelled on the ASCII
      letters (country codes, header values and path prefixes are ASCII).
    - The JavaScript [Map] is an association list in insertion order:
      [Map.prototype.set] updates an existing key in place and appends a new
      one, [keys().next().value] is the key at the head.
    - Timestamps ([Date.now()], milliseconds) are [Z].
    - Module-level state ([regionMapCache], [fallbackRegion]) is threaded
      explicitly; a computation also reports how many times it called
      [fetch] and whether it completed normally or by a thrown error.
    - The backend reply is data of the declared types: [regions] is absent or
      an array of regions, a region's [countries] is absent or an array, a
      country's [iso_2] is absent or a string. *)

From Stdlib Require Import String Ascii List ZArith Bool Lia.
Import ListNotations.

Local Open Scope string_scope.
Local Open Scope Z_scope.

(** ** JavaScript strings *)

Module JsString.

(** Truthiness of a string value: every string but the empty one. *)
Definition truthy (s : string) : bool :=
  match s with
  | EmptyString => false
  | String _ _ => true
  end.

(** Truthiness of [string | undefined]. *)
Definition truthy_opt (o : option string) : bool :=
  match o with
  | Some s => truthy s
  | None => false
  end.

Definition lower_ascii (c : ascii) : ascii :=
  let n := nat_of_ascii c in
  if (Nat.leb 65 n && Nat.leb n 90)%bool then ascii_of_nat (n + 32) else c.

(** [s.toLowerCase()] on ASCII text. *)
Fixpoint toLowerCase (s : string) : string :=
  match s with
  | EmptyString => EmptyString
  | String c s' => String (lower_ascii c) (toLowerCase s')
  end.

(** [s.split(sep)] for a one-character separator: never the empty array,
    [("").split("/")] is [[""]]. *)
Fixpoint split (sep : ascii) (s : string) : list string :=
  match s with
  | EmptyString => [EmptyString]
  | String c s' =>
      if Ascii.eqb c sep then EmptyString :: split sep s'
      else match split sep s' with
           | [] => [String c EmptyString]
           | h :: t => String c h :: t
           end
  end.

(** [s.startsWith(p)] *)
Fixpoint startsWith (s p : string) : bool :=
  match p, s with
  | EmptyString, _ => true
  | String _ _, EmptyString => false
  | String a p', String b s' => (Ascii.eqb a b && startsWith s' p')%bool
  end.

(** [s.includes(sub)]: [sub] occurs in [s] at some position. *)
Fixpoint includes (s sub : string) : bool :=
  (startsWith s sub ||
   match s with
   | EmptyString => false
   | String _ s' => includes s' sub
   end)%bool.

End JsString.

(** ** JavaScript [Map<string, V>] in insertion order *)

Module JsMap.
Section WithValue.
Context {V : Type}.

Definition t := list (string * V).

Definition empty : t := [].

(** [m.set(k, v)] *)
Fixpoint set (k : string) (v : V) (m : t) : t :=
  match m with
  | [] => [(k, v)]
  | (k', v') :: m' =>
      if String.eqb k' k then (k, v) :: m' else (k', v') :: set k v m'
  end.

(** [m.get(k)] *)
Fixpoint get (k : string) (m : t) : option V :=
  match m with
  | [] => None
  | (k', v') :: m' => if String.eqb k' k then Some v' else get k m'
  end.

(** [m.has(k)] *)
Definition has (k : string) (m : t) : bool :=
  match get k m with
  | Some _ => true
  | None => false
  end.

(** [m.keys().next().value] *)
Definition first_key (m : t) : option string :=
  match m with
  | [] => None
  | (k, _) :: _ => Some k
  end.

(** [Array.from(m.keys())] *)
Definition keys (m : t) : list string := map fst m.

End WithValue.
Arguments t : clear implicits.
End JsMap.

(** ** Backend data ([HttpTypes.StoreRegion]) *)

Record StoreRegionCountry := mkCountry {
  iso_2 : option string
}.

Record StoreRegion := mkRegion {
  name : string;
  countries : option (list StoreRegionCountry)
}.

Definition RegionMap := JsMap.t StoreRegion.

(** ** Completions, module state and the computation monad *)

Inductive Error := NetworkError | ParseError | TypeError.

Inductive Completion (A : Type) :=
| Normal (a : A)
| Thrown (e : Error).
Arguments Normal {A} a.
Arguments Thrown {A} e.

(** [regionMapCache] *)
Record RegionMapCache := mkCache {
  regionMap : RegionMap;
  regionMapUpdated : Z
}.

(** The module-level bindings that outlive a request. *)
Record State := mkState {
  regionMapCache : RegionMapCache;
  fallbackRegion : option StoreRegion
}.

(** The state right after the module is loaded at time [t0]. *)
Definition init_state (t0 : Z) : State :=
  mkState (mkCache JsMap.empty t0) None.

(** What a computation leaves behind: the state, the number of [fetch]
    calls it made, and how it completed. *)
Record Run (A : Type) := mkRun {
  after : State;
  fetches : nat;
  outcome : Completion A
}.
Arguments mkRun {A} after fetches outcome.
Arguments after {A} r.
Arguments fetches {A} r.
Arguments outcome {A} r.

Definition M (A : Type) := State -> Run A.

Definition ret {A} (a : A) : M A := fun s => mkRun s 0%nat (Normal a).

Definition throw {A} (e : Error) : M A := fun s => mkRun s 0%nat (Thrown e).

Definition bind {A B} (c : M A) (k : A -> M B) : M B :=
  fun s =>
    match c s with
    | mkRun s1 n1 (Normal a) =>
        match k a s1 with
        | mkRun s2 n2 o => mkRun s2 (n1 + n2)%nat o
        end
    | mkRun s1 n1 (Thrown e) => mkRun s1 n1 (Thrown e)
    end.

(** [try { c } catch (error) { handler error }]: the state changes made by
    [c] before it threw are kept. *)
Definition try_catch {A} (c : M A) (handler : Error -> M A) : M A :=
  fun s =>
    match c s with
    | mkRun s1 n1 (Normal a) => mkRun s1 n1 (Normal a)
    | mkRun s1 n1 (Thrown e) =>
        match handler e s1 with
        | mkRun s2 n2 o => mkRun s2 (n1 + n2)%nat o
        end
    end.

Definition lift {A} (c : Completion A) : M A :=
  fun s => mkRun s 0%nat c.

Definition gets {A} (f : State -> A) : M A :=
  fun s => mkRun s 0%nat (Normal (f s)).

Definition modify (f : State -> State) : M unit :=
  fun s => mkRun (f s) 0%nat (Normal tt).

Declare Scope js_scope.
Delimit Scope js_scope with js.
Notation "x <- c ;; k" := (bind c (fun x => k))
  (at level 61, c at next level, right associativity) : js_scope.
Notation "c ;; k" := (bind c (fun _ => k))
  (at level 61, right associativity) : js_scope.
Local Open Scope js_scope.

(** Field updates of the module state. *)
Definition with_regionMap (f : RegionMap -> RegionMap) (s : State) : State :=
  mkState (mkCache (f (regionMap (regionMapCache s)))
                   (regionMapUpdated (regionMapCache s)))
          (fallbackRegion s).

Definition with_regionMapUpdated (t : Z) (s : State) : State :=
  mkState (mkCache (regionMap (regionMapCache s)) t) (fallbackRegion s).

Definition with_fallbackRegion (r : option StoreRegion) (s : State) : State :=
  mkState (regionMapCache s) r.

(** ** The surroundings of one call *)

(** The reply of [fetch]: [response.ok] and what [response.json()] gives,
    the [regions] field of the parsed body or a parse failure. *)
Record HttpResponse := mkResponse {
  ok : bool;
  json : Completion (option (list StoreRegion))
}.

(** What the world answers during one call of [getRegionMap]: the clock
    at the freshness test, the result of awaiting [fetch], and the clock at
    the moment the timestamp is written. *)
Record Env := mkEnv {
  now_check : Z;
  fetch_reply : Completion HttpResponse;
  now_write : Z
}.

(** [await fetch(...)]: one network call. *)
Definition fetch (env : Env) : M HttpResponse :=
  fun s => mkRun s 1%nat (fetch_reply env).

(** ** Requests and responses *)

Record NextUrl := mkUrl {
  pathname : string;
  search : string;
  origin : string;
  href : string
}.

(** Header names are kept in lower case, as [Headers] stores them. *)
Record NextRequest := mkRequest {
  nextUrl : NextUrl;
  headers : list (string * string)
}.

(** [request.headers.get(name)] *)
Definition headers_get (request : NextRequest) (name : string) : option string :=
  JsMap.get (JsString.toLowerCase name) (headers request).

Inductive NextResponse :=
| next
| redirect (url : string) (status : Z).


(** ** The program *)

Section Middleware.

(** [process.env.NEXT_PUBLIC_DEFAULT_REGION], unset or a string. *)
Variable NEXT_PUBLIC_DEFAULT_REGION : option string.

(** [process.env.NEXT_PUBLIC_DEFAULT_REGION || "us"] *)
Definition DEFAULT_REGION : string :=
  match NEXT_PUBLIC_DEFAULT_REGION with
  | Some v => if JsString.truthy v then v else "us"
  | None => "us"
  end.

Definition DEFAULT_REGION_CODE : string :=
  match NEXT_PUBLIC_DEFAULT_REGION with
  | Some v => if JsString.truthy v then v else "us"
  | None => "us"
  end.

(** *** [getRegionMap] *)

(** The test that opens [getRegionMap]:
    [!regionMap.keys().next().value ||
     regionMapUpdated < Date.now() - 3600 * 1000]. *)
Definition needs_refresh (now : Z) (cache : RegionMapCache) : bool :=
  (negb (JsString.truthy_opt (JsMap.first_key (regionMap cache))) ||
   (regionMapUpdated cache <? now - 3600 * 1000))%bool.

(** [!regions?.length] *)
Definition no_length (regions : option (list StoreRegion)) : bool :=
  match regions with
  | None => true
  | Some l => Nat.eqb (length l) 0
  end.

(** [country.iso_2 === DEFAULT_REGION_CODE] *)
Definition is_default_country (country : StoreRegionCountry) : bool :=
  match iso_2 country with
  | Some code => String.eqb code DEFAULT_REGION_CODE
  | None => false
  end.

(** [region.countries?.some(country => country.iso_2 === DEFAULT_REGION_CODE)],
    read as a condition. *)
Definition has_default_country (region : StoreRegion) : bool :=
  match countries region with
  | Some cs => existsb is_default_country cs
  | None => false
  end.

(** The choice of the fallback region among the fetched [regions]:
    [regions.find(...)], and [regions[0]] when nothing is found. *)
Definition choose_fallback (regions : list StoreRegion) : option StoreRegion :=
  match find has_default_country regions with
  | Some envRegion => Some envRegion
  | None => nth_error regions 0
  end.

(** [c.iso_2 ?? ""] *)
Definition key_of_country (c : StoreRegionCountry) : string :=
  match iso_2 c with
  | Some code => code
  | None => ""
  end.

(** [region.countries?.forEach((c) => regionMap.set(c.iso_2 ?? "", region))] *)
Definition add_region (m : RegionMap) (region : StoreRegion) : RegionMap :=
  match countries region with
  | Some cs => fold_left (fun m c => JsMap.set (key_of_country c) region m) cs m
  | None => m
  end.

(** [regions.forEach((region) => ...)] *)
Definition add_regions (regions : list StoreRegion) (m : RegionMap) : RegionMap :=
  fold_left add_region regions m.

(** The loop of the [catch] block:
    [fallbackRegion.countries?.forEach((country) =>
       { if (country.iso_2) regionMap.set(country.iso_2, fallbackRegion) })]. *)
Definition add_fallback (fb : StoreRegion) (m : RegionMap) : RegionMap :=
  match countries fb with
  | Some cs =>
      fold_left
        (fun m country =>
           match iso_2 country with
           | Some code => if JsString.truthy code then JsMap.set code fb m else m
           | None => m
           end)
        cs m
  | None => m
  end.

(** The [try] block.  Its value is [Some m] when it leaves the function by
    [return m], and [None] when it runs to its end. *)
Definition getRegionMap_try (env : Env) : M (option RegionMap) :=
  response <- fetch env ;;
  if negb (ok response) then
    m <- gets (fun s => regionMap (regionMapCache s)) ;;
    ret (Some m)
  else
    regions <- lift (json response) ;;
    if no_length regions then
      m <- gets (fun s => regionMap (regionMapCache s)) ;;
      ret (Some m)
    else
      let regions := match regions with Some l => l | None => [] end in
      fb <- gets fallbackRegion ;;
      (match fb with
       | None =>
           if (0 <? length regions)%nat
           then modify (with_fallbackRegion (choose_fallback regions))
           else ret tt
       | Some _ => ret tt
       end) ;;
      modify (with_regionMap (add_regions regions)) ;;
      modify (with_regionMapUpdated (now_write env)) ;;
      ret None.

(** The [catch] block. *)
Definition getRegionMap_catch (env : Env) (error : Error) : M (option RegionMap) :=
  m <- gets (fun s => regionMap (regionMapCache s)) ;;
  fb <- gets fallbackRegion ;;
  (match fb with
   | Some fallback =>
       if negb (JsString.truthy_opt (JsMap.first_key m)) then
         modify (with_regionMap (add_fallback fallback)) ;;
         modify (with_regionMapUpdated (now_write env))
       else ret tt
   | None => ret tt
   end) ;;
  m <- gets (fun s => regionMap (regionMapCache s)) ;;
  ret (Some m).

Definition getRegionMap (env : Env) : M RegionMap :=
  cache <- gets regionMapCache ;;
  returned <-
    (if needs_refresh (now_check env) cache
     then try_catch (getRegionMap_try env) (getRegionMap_catch env)
     else ret None) ;;
  match returned with
  | Some m => ret m
  | None => gets (fun s => regionMap (regionMapCache s))
  end.

(** *** [getCountryCode] *)

(** [request.nextUrl.pathname.split("/")[1]], undefined ([None]) when the
    path has no ["/"]. *)
Definition url_segment (request : NextRequest) : option string :=
  nth_error (JsString.split "/" (pathname (nextUrl request))) 1.

(** [x && regionMap.has(x)] for [x : string | undefined], as a condition. *)
Definition present_and_known (x : option string) (regionMap : RegionMap) : bool :=
  match x with
  | Some k => (JsString.truthy k && JsMap.has k regionMap)%bool
  | None => false
  end.

(** [if (!countryCode) { countryCode = DEFAULT_REGION_CODE }] followed by
    [return countryCode]. *)
Definition or_default_code (countryCode : option string) : string :=
  match countryCode with
  | Some c => if JsString.truthy c then c else DEFAULT_REGION_CODE
  | None => DEFAULT_REGION_CODE
  end.

(** The [try] block of [getCountryCode]; [countryCode] starts out
    undefined ([None]).  Nothing in the block throws. *)
Definition getCountryCode_try
    (request : NextRequest) (regionMap : RegionMap) : Completion string :=
  let vercelCountryCode :=
    option_map JsString.toLowerCase (headers_get request "x-vercel-ip-country") in
  let urlCountryCode := option_map JsString.toLowerCase (url_segment request) in
  let countryCode : option string :=
    if present_and_known urlCountryCode regionMap then urlCountryCode
    else if present_and_known vercelCountryCode regionMap then vercelCountryCode
    else if JsMap.has DEFAULT_REGION regionMap then Some DEFAULT_REGION
    else if JsString.truthy_opt (JsMap.first_key regionMap)
         then JsMap.first_key regionMap
    else None in
  Normal (or_default_code countryCode).

(** [getCountryCode]: the [try] block and its [catch], which answers the
    default region code. *)
Definition getCountryCode (request : NextRequest) (regionMap : RegionMap) : string :=
  match getCountryCode_try request regionMap with
  | Normal countryCode => countryCode
  | Thrown _ => DEFAULT_REGION_CODE
  end.

(** *** [middleware] *)

(** [`${origin}/${code}${pathname === "/" ? "" : pathname}${search || ""}`] *)
Definition region_url (request : NextRequest) (code : string) : string :=
  let redirectPath :=
    if String.eqb (pathname (nextUrl request)) "/" then ""
    else pathname (nextUrl request) in
  let queryString :=
    if JsString.truthy (search (nextUrl request)) then search (nextUrl request)
    else "" in
  origin (nextUrl request) ++ "/" ++ code ++ redirectPath ++ queryString.

(** [request.nextUrl.pathname.split("/")[1].includes(countryCode)]: reading
    [includes] off an absent second element throws a [TypeError]. *)
Definition first_segment_includes (request : NextRequest) (countryCode : string)
  : Completion bool :=
  match url_segment request with
  | Some segment => Normal (JsString.includes segment countryCode)
  | None => Thrown TypeError
  end.

(** The [try] block of [middleware].  [getRegionMap] answers a [Map] object,
    which is truthy, so [regionMap && ...] is its right operand. *)
Definition middleware_try (env : Env) (request : NextRequest) : M NextResponse :=
  regionMap <- getRegionMap env ;;
  let countryCode := getCountryCode request regionMap in
  urlHasCountryCode <-
    (if JsString.truthy countryCode
     then lift (first_segment_includes request countryCode)
     else ret false) ;;
  if urlHasCountryCode then ret next
  else
    let response := redirect (href (nextUrl request)) 307 in
    let response :=
      if (negb urlHasCountryCode && JsString.truthy countryCode)%bool
      then redirect (region_url request countryCode) 307
      else response in
    ret response.

(** The [catch] block of [middleware]. *)
Definition middleware_catch (request : NextRequest) (error : Error) : M NextResponse :=
  ret (redirect (region_url request DEFAULT_REGION_CODE) 307).

Definition middleware (env : Env) (request : NextRequest) : M NextResponse :=
  try_catch (middleware_try env request) (middleware_catch request).

(** The [try] block of the copy of [middleware] that logs its steps; it has
    one more branch, taken when [countryCode] is falsy. *)
Definition middleware_verbose_try (env : Env) (request : NextRequest)
  : M NextResponse :=
  regionMap <- getRegionMap env ;;
  let countryCode := getCountryCode request regionMap in
  urlHasCountryCode <-
    (if JsString.truthy countryCode
     then lift (first_segment_includes request countryCode)
     else ret false) ;;
  if urlHasCountryCode then ret next
  else
    let response := redirect (href (nextUrl request)) 307 in
    let response :=
      if (negb urlHasCountryCode && JsString.truthy countryCode)%bool
      then redirect (region_url request countryCode) 307
      else if negb (JsString.truthy countryCode)
           then redirect (region_url request DEFAULT_REGION_CODE) 307
           else response in
    ret response.

Definition middleware_verbose (env : Env) (request : NextRequest) : M NextResponse :=
  try_catch (middleware_verbose_try env request) (middleware_catch request).

(** *** Runs of several calls *)

(** Successive calls of [getRegionMap], one per element of [envs]; the
    result is the final state and the total number of fetches. *)
Fixpoint getRegionMap_calls (envs : list Env) (s : State) : State * nat :=
  match envs with
  | [] => (s, 0%nat)
  | env :: rest =>
      let r := getRegionMap env s in
      let '(s', n) := getRegionMap_calls rest (after r) in
      (s', (fetches r + n)%nat)
  end.

(** Successive requests served by [middleware]; the final state. *)
Fixpoint serve (reqs : list (Env * NextRequest)) (s : State) : State :=
  match reqs with
  | [] => s
  | (env, request) :: rest => serve rest (after (middleware env request s))
  end.

End Middleware.

Arguments needs_refresh now cache : simpl never.

(** * Vocabulary of the properties *)

(** The fetch of [env] succeeded and the parsed body carries [regions]. *)
Definition fetched (env : Env) (regions : option (list StoreRegion)) : Prop :=
  exists response,
    fetch_reply env = Normal response /\ ok response = true /\
    json response = Normal regions.

(** The fetch of [env] came back with a status that is not a success. *)
Definition fetch_not_ok (env : Env) : Prop :=
  exists response, fetch_reply env = Normal response /\ ok response = false.

(** The fetch of [env] threw: [fetch] itself (network failure) or
    [response.json()] (parse failure). *)
Definition fetch_threw (env : Env) : Prop :=
  (exists e, fetch_reply env = Thrown e) \/
  (exists response e,
     fetch_reply env = Normal response /\ ok response = true /\
     json response = Thrown e).

(** [region] lists the country code [code]. *)
Definition lists_code (region : StoreRegion) (code : string) : Prop :=
  exists cs c, countries region = Some cs /\ In c cs /\ iso_2 c = Some code.

(** [region] has a country that the success path stores under key [k]. *)
Definition writes_key (region : StoreRegion) (k : string) : Prop :=
  exists cs c, countries region = Some cs /\ In c cs /\ key_of_country c = k.

(** [region] is the last element of [regions] that writes key [k]. *)
Definition last_writer (regions : list StoreRegion) (k : string)
    (region : StoreRegion) : Prop :=
  exists before later,
    regions = (before ++ region :: later)%list /\ writes_key region k /\
    Forall (fun q => ~ writes_key q k) later.

(** [region] is the first element of [regions] that lists [code]. *)
Definition first_listing (regions : list StoreRegion) (code : string)
    (region : StoreRegion) : Prop :=
  exists before later,
    regions = (before ++ region :: later)%list /\ lists_code region code /\
    Forall (fun q => ~ lists_code q code) before.

(** Decision procedures for [writes_key] and for "[region] lists the
    non-empty code [k]". *)
Definition writes_keyb (region : StoreRegion) (k : string) : bool :=
  match countries region with
  | Some cs => existsb (fun c => String.eqb (key_of_country c) k) cs
  | None => false
  end.

Definition lists_nonempty_codeb (region : StoreRegion) (k : string) : bool :=
  match countries region with
  | Some cs =>
      existsb (fun c => match iso_2 c with
                        | Some code => (JsString.truthy code && String.eqb code k)%bool
                        | None => false
                        end) cs
  | None => false
  end.

(** The resolution order in the words of the specification of
    [getCountryCode], for comparison with the code: the first of the
    lower-cased path segment, the lower-cased geolocation header, the
    default region and the first-inserted key that is a key of the
    directory, and the default region code when there is none. *)
Definition first_known (candidates : list (option string)) (directory : RegionMap)
  : option string :=
  match find (fun x => match x with
                       | Some k => JsMap.has k directory
                       | None => false
                       end) candidates with
  | Some x => x
  | None => None
  end.

Definition resolve_as_specified (cfg : option string)
    (request : NextRequest) (directory : RegionMap) : string :=
  match first_known
          [ option_map JsString.toLowerCase (url_segment request);
            option_map JsString.toLowerCase
              (headers_get request "x-vercel-ip-country");
            Some (DEFAULT_REGION cfg);
            JsMap.first_key directory ]
          directory with
  | Some k => k
  | None => DEFAULT_REGION_CODE cfg
  end.

(** A candidate of [getCountryCode] counts when it is a non-empty string
    and a key of the directory. *)
Definition usable (x : option string) (directory : RegionMap) : Prop :=
  exists k, x = Some k /\ k <> "" /\ JsMap.has k directory = true.

(** * Sample data used by the examples *)

Definition country (code : string) : StoreRegionCountry := mkCountry (Some code).

(** A country record whose [iso_2] is missing. *)
Definition country_without_code : StoreRegionCountry := mkCountry None.

Definition region_of (name : string) (codes : list string) : StoreRegion :=
  mkRegion name (Some (map country codes)).

(** A successful reply carrying [regions]. *)
Definition reply_regions (regions : list StoreRegion) : Completion HttpResponse :=
  Normal (mkResponse true (Normal (Some regions))).

(** A reply with a status outside 200-299. *)
Definition reply_unavailable : Completion HttpResponse :=
  Normal (mkResponse false (Normal None)).

(** [fetch] rejects. *)
Definition reply_network_failure : Completion HttpResponse :=
  Thrown NetworkError.

Definition request_to (path query : string) (hdrs : list (string * string))
  : NextRequest :=
  mkRequest
    (mkUrl path query "https://shop.example" ("https://shop.example" ++ path ++ query))
    hdrs.

Definition region_na : StoreRegion := region_of "North America" ["us"; "ca"].

Definition region_eu : StoreRegion := region_of "Europe" ["de"; "fr"].

(** A region that has no country yet. *)
Definition region_bare : StoreRegion := mkRegion "Unassigned" (Some []).

(** A region whose only country record carries no [iso_2]. *)
Definition region_nowhere : StoreRegion :=
  mkRegion "Nowhere" (Some [country_without_code]).

(** A region whose first country record carries no [iso_2]. *)
Definition region_a : StoreRegion :=
  mkRegion "A" (Some [country_without_code; country "fr"]).

Definition region_b : StoreRegion := region_of "B" ["fr"].

(** ** The health route ([app/api/health/route.ts]) *)

(** [process.env]: the variables that are set, by name. *)
Definition ProcessEnv := JsMap.t string.

(** [!!process.env.NAME] *)
Definition is_set (env : ProcessEnv) (name : string) : bool :=
  JsString.truthy_opt (JsMap.get name env).

(** The object [envCheck], as its entries in the order they are written. *)
Definition envCheck (env : ProcessEnv) : list (string * bool) :=
  [ ("NEXT_PUBLIC_MEDUSA_BACKEND_URL", is_set env "NEXT_PUBLIC_MEDUSA_BACKEND_URL");
    ("NEXT_PUBLIC_MEDUSA_PUBLISHABLE_KEY", is_set env "NEXT_PUBLIC_MEDUSA_PUBLISHABLE_KEY");
    ("NEXT_PUBLIC_BASE_URL", is_set env "NEXT_PUBLIC_BASE_URL");
    ("NEXT_PUBLIC_DEFAULT_REGION", is_set env "NEXT_PUBLIC_DEFAULT_REGION");
    ("NEXT_PUBLIC_STRIPE_KEY", is_set env "NEXT_PUBLIC_STRIPE_KEY") ].

(** The body the route serialises. *)
Record HealthBody := mkHealthBody {
  status : string;
  environment : option string;
  envVars : list (string * bool);
  timestamp : string
}.

(** A JSON response: [NextResponse.json(body)] answers with status 200 when
    no other status is given. *)
Record JsonResponse := mkJsonResponse {
  http_status : Z;
  body : HealthBody
}.

(** [GET]; [isoNow] is what [new Date().toISOString()] gives at the call. *)
Definition GET (env : ProcessEnv) (isoNow : string) : JsonResponse :=
  let allEnvVarsPresent := forallb (fun present => present) (map snd (envCheck env)) in
  mkJsonResponse 200
    (mkHealthBody
       (if allEnvVarsPresent then "healthy" else "unhealthy")
       (JsMap.get "NODE_ENV" env)
       (envCheck env)
       isoNow).

(** ** More vocabulary *)

(** The names the health route looks at. *)
Definition health_variables : list string :=
  [ "NEXT_PUBLIC_MEDUSA_BACKEND_URL"; "NEXT_PUBLIC_MEDUSA_PUBLISHABLE_KEY";
    "NEXT_PUBLIC_BASE_URL"; "NEXT_PUBLIC_DEFAULT_REGION";
    "NEXT_PUBLIC_STRIPE_KEY" ].

(** [s] has no ["/"] in it. *)
Fixpoint slash_free (s : string) : bool :=
  match s with
  | EmptyString => true
  | String c s' => (negb (Ascii.eqb c "/") && slash_free s')%bool
  end.

(** Every entry of the directory maps its key to a region that has a
    country stored under that key. *)
Definition well_keyed (m : RegionMap) : Prop :=
  forall k region, JsMap.get k m = Some region -> writes_key region k.

(** The directory has no entry, or its first-inserted key is the empty
    string: what the code takes for an empty directory. *)
Definition looks_empty (m : RegionMap) : Prop :=
  JsMap.first_key m = None \/ JsMap.first_key m = Some "".

(** A process environment in which the five variables are set. *)
Definition env_complete : ProcessEnv :=
  [ ("NODE_ENV", "production");
    ("NEXT_PUBLIC_MEDUSA_BACKEND_URL", "https://backend.example");
    ("NEXT_PUBLIC_MEDUSA_PUBLISHABLE_KEY", "pk_1");
    ("NEXT_PUBLIC_BASE_URL", "https://shop.example");
    ("NEXT_PUBLIC_DEFAULT_REGION", "de");
    ("NEXT_PUBLIC_STRIPE_KEY", "pk_2") ].

(** A warm cache holding the European region, and one holding the North
    American region. *)
Definition state_eu : State :=
  mkState (mkCache [("de", region_eu); ("fr", region_eu)] 1100) (Some region_eu).

Definition state_na : State :=
  mkState (mkCache [("us", region_na); ("ca", region_na)] 1100) (Some region_na).

(** A call at time [t] during which [fetch] rejects. *)
Definition env_down (t : Z) : Env := mkEnv t reply_network_failure (t + 100).

(** * Facts about the JavaScript values *)

Module JsFacts.

Lemma truthy_nonempty (s : string) : JsString.truthy s = true <-> s <> "".
Proof.
  destruct s; simpl; split; intro H; congruence.
Qed.

Lemma falsy_empty (s : string) : JsString.truthy s = false <-> s = "".
Proof.
  destruct s; simpl; split; intro H; congruence.
Qed.

Lemma startsWith_app (s p : string) :
  JsString.startsWith s p = true <-> exists rest, s = p ++ rest.
Proof.
  revert s; induction p as [|c p IH]; intros s.
  - destruct s; simpl; (split; [intros _; eexists; reflexivity | reflexivity]).
  - destruct s as [|d s]; simpl.
    + split; [discriminate | intros [rest H]; discriminate].
    + destruct (Ascii.eqb_spec c d) as [->|Hne]; simpl.
      * rewrite IH. split; intros [rest H]; exists rest; congruence.
      * split; [discriminate | intros [rest H]; congruence].
Qed.

(** [includes] decides the substring relation. *)
Lemma includes_substring (s sub : string) :
  JsString.includes s sub = true <-> exists a b, s = a ++ sub ++ b.
Proof.
  induction s as [|c s IH].
  - cbn [JsString.includes]. rewrite orb_false_r, startsWith_app. split.
    + intros [rest H]. exists "", rest. exact H.
    + intros [a [b H]]. destruct a; simpl in H.
      * exists b; exact H.
      * discriminate.
  - cbn [JsString.includes]. rewrite orb_true_iff, IH, startsWith_app. split.
    + intros [[rest H] | [a [b H]]].
      * exists "", rest. exact H.
      * exists (String c a), b. simpl. now rewrite H.
    + intros [a [b H]]. destruct a as [|d a]; simpl in H.
      * left. exists b. exact H.
      * right. exists a, b. congruence.
Qed.

Section MapFacts.
Context {V : Type}.
Implicit Types (m : JsMap.t V) (k : string) (v : V).

Lemma get_set_same k v m : JsMap.get k (JsMap.set k v m) = Some v.
Proof.
  induction m as [|[k' v'] m IH]; simpl.
  - now rewrite String.eqb_refl.
  - destruct (String.eqb k' k) eqn:E; simpl.
    + now rewrite String.eqb_refl.
    + now rewrite E.
Qed.

Lemma get_set_other k k' v m :
  k <> k' -> JsMap.get k' (JsMap.set k v m) = JsMap.get k' m.
Proof.
  intros Hne. induction m as [|[k0 v0] m IH]; simpl.
  - apply String.eqb_neq in Hne. now rewrite Hne.
  - destruct (String.eqb k0 k) eqn:E; simpl.
    + apply String.eqb_eq in E; subst k0.
      apply String.eqb_neq in Hne. now rewrite Hne.
    + destruct (String.eqb k0 k'); [reflexivity | exact IH].
Qed.

(** [set] never changes which key comes first, unless the map was empty. *)
Lemma first_key_set k v m :
  JsMap.first_key (JsMap.set k v m) =
  match JsMap.first_key m with
  | Some k0 => Some k0
  | None => Some k
  end.
Proof.
  destruct m as [|[k0 v0] m]; simpl; [reflexivity|].
  destruct (String.eqb k0 k) eqn:E; simpl; [|reflexivity].
  apply String.eqb_eq in E. now subst.
Qed.

Lemma has_get k m : JsMap.has k m = true <-> exists v, JsMap.get k m = Some v.
Proof.
  unfold JsMap.has. destruct (JsMap.get k m) as [v|].
  - split; [intros _; now exists v | reflexivity].
  - split; [discriminate | intros [v H]; discriminate].
Qed.

Lemma has_keys k m : JsMap.has k m = true <-> In k (JsMap.keys m).
Proof.
  unfold JsMap.has, JsMap.keys.
  induction m as [|[k0 v0] m IH]; simpl.
  - split; [discriminate | tauto].
  - destruct (String.eqb_spec k0 k) as [->|Hne].
    + split; auto.
    + rewrite IH. split; [auto | intros [H|H]; [contradiction | exact H]].
Qed.

End MapFacts.

End JsFacts.

(** * Facts about the population loops and the fallback choice *)

Section PopulationFacts.

Lemma writes_keyb_spec region k :
  writes_keyb region k = true <-> writes_key region k.
Proof.
  unfold writes_keyb, writes_key.
  destruct (countries region) as [cs|].
  - rewrite existsb_exists. split.
    + intros (c & Hin & Heq). apply String.eqb_eq in Heq. now exists cs, c.
    + intros (cs' & c & Hcs & Hin & Heq). inversion Hcs; subst cs'.
      exists c. split; [exact Hin | now apply String.eqb_eq].
  - split; [discriminate | intros (cs & c & Hcs & _); discriminate].
Qed.

Lemma lists_code_writes region code :
  lists_code region code -> writes_key region code.
Proof.
  intros (cs & c & Hcs & Hin & Hiso). exists cs, c.
  unfold key_of_country. now rewrite Hiso.
Qed.

Lemma lists_nonempty_codeb_spec region k :
  lists_nonempty_codeb region k = true <-> lists_code region k /\ k <> "".
Proof.
  unfold lists_nonempty_codeb, lists_code.
  destruct (countries region) as [cs|].
  - rewrite existsb_exists. split.
    + intros (c & Hin & H). destruct (iso_2 c) as [code|] eqn:Hiso; [|discriminate].
      apply andb_true_iff in H. destruct H as [Ht Heq].
      apply String.eqb_eq in Heq; subst code.
      split; [now exists cs, c | now apply JsFacts.truthy_nonempty].
    + intros [(cs' & c & Hcs & Hin & Hiso) Hne]. inversion Hcs; subst cs'.
      exists c. split; [exact Hin|]. rewrite Hiso.
      apply andb_true_iff. split;
        [now apply JsFacts.truthy_nonempty | apply String.eqb_refl].
  - split; [discriminate | intros [(cs & c & Hcs & _) _]; discriminate].
Qed.

(** What the inner loop of the success path does to one key. *)
Lemma get_add_region k m region :
  JsMap.get k (add_region m region) =
  if writes_keyb region k then Some region else JsMap.get k m.
Proof.
  unfold add_region, writes_keyb.
  destruct (countries region) as [cs|]; [|reflexivity].
  revert m. induction cs as [|c cs IH]; intros m; [reflexivity|].
  cbn [fold_left existsb]. rewrite IH.
  destruct (String.eqb_spec (key_of_country c) k) as [->|Hne]; cbn [orb].
  - rewrite JsFacts.get_set_same. now destruct (existsb _ cs).
  - now rewrite JsFacts.get_set_other.
Qed.

Lemma get_add_regions_silent k regions m :
  Forall (fun q => ~ writes_key q k) regions ->
  JsMap.get k (add_regions regions m) = JsMap.get k m.
Proof.
  unfold add_regions. intros H. revert m.
  induction H as [|q regions Hq _ IH]; intros m; [reflexivity|].
  cbn [fold_left]. rewrite IH, get_add_region.
  destruct (writes_keyb q k) eqn:E; [|reflexivity].
  apply writes_keyb_spec in E. contradiction.
Qed.

(** Last writer wins. *)
Lemma get_add_regions_last k regions region m :
  last_writer regions k region ->
  JsMap.get k (add_regions regions m) = Some region.
Proof.
  intros (before & later & -> & Hw & Hlater).
  unfold add_regions. rewrite fold_left_app. cbn [fold_left].
  fold (add_regions later (add_region (fold_left add_region before m) region)).
  rewrite get_add_regions_silent by exact Hlater.
  rewrite get_add_region.
  apply writes_keyb_spec in Hw. now rewrite Hw.
Qed.

Lemma no_writer_Forall k regions :
  existsb (fun q => writes_keyb q k) regions = false ->
  Forall (fun q => ~ writes_key q k) regions.
Proof.
  intros E. apply Forall_forall. intros q Hq Hw.
  apply writes_keyb_spec in Hw.
  assert (existsb (fun q => writes_keyb q k) regions = true) as E'
    by (apply existsb_exists; now exists q).
  congruence.
Qed.

(** A key written by some region has a last writer. *)
Lemma last_writer_exists k regions region :
  In region regions -> writes_key region k ->
  exists region', last_writer regions k region'.
Proof.
  intros Hin Hw.
  assert (existsb (fun q => writes_keyb q k) regions = true) as E.
  { apply existsb_exists. exists region. split; [exact Hin|].
    now apply writes_keyb_spec. }
  clear Hin Hw region.
  induction regions as [|a regions IH]; [discriminate|].
  destruct (existsb (fun q => writes_keyb q k) regions) eqn:E'.
  - destruct (IH eq_refl) as (r' & before & later & -> & Hw & Hlater).
    exists r', (a :: before)%list, later. auto.
  - cbn [existsb] in E. rewrite E', orb_false_r in E.
    exists a, [], regions. split; [reflexivity|]. split.
    + now apply writes_keyb_spec.
    + now apply no_writer_Forall.
Qed.

Lemma last_writer_In k regions region :
  last_writer regions k region -> In region regions /\ writes_key region k.
Proof.
  intros (before & later & -> & Hw & _). split; [|exact Hw].
  apply in_or_app. right. now left.
Qed.

(** The first key of the map after the success path: the old first key,
    or the first key written when the map was empty. *)
Lemma first_key_add_region m region k0 :
  JsMap.first_key m = Some k0 ->
  JsMap.first_key (add_region m region) = Some k0.
Proof.
  unfold add_region. destruct (countries region) as [cs|]; [|auto].
  revert m. induction cs as [|c cs IH]; intros m Hk; [exact Hk|].
  cbn [fold_left]. apply IH. rewrite JsFacts.first_key_set. now rewrite Hk.
Qed.

Lemma first_key_add_regions regions m k0 :
  JsMap.first_key m = Some k0 ->
  JsMap.first_key (add_regions regions m) = Some k0.
Proof.
  unfold add_regions. revert m.
  induction regions as [|r regions IH]; intros m Hk; [exact Hk|].
  cbn [fold_left]. apply IH. now apply first_key_add_region.
Qed.

(** What the loop of the [catch] block does to one key. *)
Lemma get_add_fallback k fb m :
  JsMap.get k (add_fallback fb m) =
  if lists_nonempty_codeb fb k then Some fb else JsMap.get k m.
Proof.
  unfold add_fallback, lists_nonempty_codeb.
  destruct (countries fb) as [cs|]; [|reflexivity].
  revert m. induction cs as [|c cs IH]; intros m; [reflexivity|].
  cbn [fold_left existsb]. rewrite IH.
  destruct (iso_2 c) as [code|]; [|reflexivity].
  destruct (JsString.truthy code); [|reflexivity].
  cbn [andb]. destruct (String.eqb_spec code k) as [->|Hne]; cbn [orb].
  - rewrite JsFacts.get_set_same. now destruct (existsb _ cs).
  - now rewrite JsFacts.get_set_other.
Qed.

Lemma first_key_add_fallback fb m k0 :
  JsMap.first_key m = Some k0 ->
  JsMap.first_key (add_fallback fb m) = Some k0.
Proof.
  unfold add_fallback. destruct (countries fb) as [cs|]; [|auto].
  revert m. induction cs as [|c cs IH]; intros m Hk; [exact Hk|].
  cbn [fold_left]. apply IH.
  destruct (iso_2 c) as [code|]; [|exact Hk].
  destruct (JsString.truthy code); [|exact Hk].
  rewrite JsFacts.first_key_set. now rewrite Hk.
Qed.

Variable cfg : option string.

Lemma DEFAULT_REGION_CODE_truthy : JsString.truthy (DEFAULT_REGION_CODE cfg) = true.
Proof.
  unfold DEFAULT_REGION_CODE. destruct cfg as [v|]; [|reflexivity].
  destruct (JsString.truthy v) eqn:E; [exact E | reflexivity].
Qed.

Lemma DEFAULT_REGION_same : DEFAULT_REGION cfg = DEFAULT_REGION_CODE cfg.
Proof. reflexivity. Qed.

Lemma has_default_country_spec region :
  has_default_country cfg region = true <->
  lists_code region (DEFAULT_REGION_CODE cfg).
Proof.
  unfold has_default_country, lists_code, is_default_country.
  destruct (countries region) as [cs|].
  - rewrite existsb_exists. split.
    + intros (c & Hin & H). destruct (iso_2 c) as [code|] eqn:Hiso; [|discriminate].
      apply String.eqb_eq in H; subst code. now exists cs, c.
    + intros (cs' & c & Hcs & Hin & Hiso). inversion Hcs; subst cs'.
      exists c. split; [exact Hin|]. rewrite Hiso. apply String.eqb_refl.
  - split; [discriminate | intros (cs & c & Hcs & _); discriminate].
Qed.

(** [find] answers the first region that lists the default code. *)
Lemma choose_fallback_first regions region :
  first_listing regions (DEFAULT_REGION_CODE cfg) region ->
  choose_fallback cfg regions = Some region.
Proof.
  intros (before & later & -> & Hl & Hbefore).
  unfold choose_fallback.
  assert (find (has_default_country cfg) (before ++ region :: later)%list
          = Some region) as ->; [|reflexivity].
  induction Hbefore as [|q before Hq _ IH]; cbn [app find].
  - apply has_default_country_spec in Hl. now rewrite Hl.
  - destruct (has_default_country cfg q) eqn:E; [|exact IH].
    apply has_default_country_spec in E. contradiction.
Qed.

(** Without such a region the choice is [regions[0]]. *)
Lemma choose_fallback_head regions :
  Forall (fun q => ~ lists_code q (DEFAULT_REGION_CODE cfg)) regions ->
  choose_fallback cfg regions = nth_error regions 0.
Proof.
  intros H. unfold choose_fallback.
  assert (find (has_default_country cfg) regions = None) as ->; [|reflexivity].
  induction H as [|q regions Hq _ IH]; [reflexivity|]. cbn [find].
  destruct (has_default_country cfg q) eqn:E; [|exact IH].
  apply has_default_country_spec in E. contradiction.
Qed.

End PopulationFacts.

(** * Facts about [getRegionMap] *)

Section CacheFacts.

(** The value of [process.env.NEXT_PUBLIC_DEFAULT_REGION]. *)
Variable cfg : option string.

(** The state a successful refresh with a non-empty list leaves. *)
Lemma getRegionMap_refreshed env s regions :
  needs_refresh (now_check env) (regionMapCache s) = true ->
  fetched env (Some regions) -> regions <> [] ->
  getRegionMap cfg env s =
  let m := add_regions regions (regionMap (regionMapCache s)) in
  mkRun (mkState (mkCache m (now_write env))
                 (match fallbackRegion s with
                  | Some fb => Some fb
                  | None => choose_fallback cfg regions
                  end))
        1%nat (Normal m).
Proof.
  intros Hstale (response & Hreply & Hok & Hjson) Hne.
  unfold getRegionMap, bind, gets, try_catch, getRegionMap_try, bind, fetch,
    lift, gets, modify, ret.
  rewrite Hstale, Hreply, Hok; cbn. rewrite Hjson.
  destruct regions as [|r rs]; [congruence|]; cbn.
  destruct s as [[m u] [fb|]]; reflexivity.
Qed.

(** A status that is not a success, or a body without regions, changes
    nothing. *)
Lemma getRegionMap_no_regions env s :
  needs_refresh (now_check env) (regionMapCache s) = true ->
  fetch_not_ok env \/ fetched env None \/ fetched env (Some []) ->
  getRegionMap cfg env s = mkRun s 1%nat (Normal (regionMap (regionMapCache s))).
Proof.
  intros Hstale H.
  unfold getRegionMap, bind, gets, try_catch, getRegionMap_try, bind, fetch,
    lift, gets, modify, ret.
  rewrite Hstale.
  destruct H as [(response & Hreply & Hok) | [H | H]].
  - rewrite Hreply, Hok; reflexivity.
  - destruct H as (response & Hreply & Hok & Hjson).
    rewrite Hreply, Hok; cbn. rewrite Hjson; reflexivity.
  - destruct H as (response & Hreply & Hok & Hjson).
    rewrite Hreply, Hok; cbn. rewrite Hjson; reflexivity.
Qed.

(** The state the [catch] block leaves when the fetch threw. *)
Lemma getRegionMap_threw env s :
  needs_refresh (now_check env) (regionMapCache s) = true ->
  fetch_threw env ->
  getRegionMap cfg env s =
  let m := regionMap (regionMapCache s) in
  match fallbackRegion s with
  | Some fb =>
      if JsString.truthy_opt (JsMap.first_key m)
      then mkRun s 1%nat (Normal m)
      else mkRun (mkState (mkCache (add_fallback fb m) (now_write env)) (Some fb))
                 1%nat (Normal (add_fallback fb m))
  | None => mkRun s 1%nat (Normal m)
  end.
Proof.
  intros Hstale H.
  unfold getRegionMap, bind, gets, try_catch, getRegionMap_try,
    getRegionMap_catch, bind, fetch, lift, gets, modify, ret.
  rewrite Hstale.
  destruct H as [[e Hreply] | (response & e & Hreply & Hok & Hjson)].
  - rewrite Hreply.
    destruct s as [[m u] [fb|]]; cbn; [|reflexivity].
    destruct (JsString.truthy_opt (JsMap.first_key m)); reflexivity.
  - rewrite Hreply, Hok; cbn. rewrite Hjson.
    destruct s as [[m u] [fb|]]; cbn; [|reflexivity].
    destruct (JsString.truthy_opt (JsMap.first_key m)); reflexivity.
Qed.

(** A fresh, non-empty cache is answered without a fetch. *)
Lemma getRegionMap_fresh env s :
  needs_refresh (now_check env) (regionMapCache s) = false ->
  getRegionMap cfg env s = mkRun s 0%nat (Normal (regionMap (regionMapCache s))).
Proof.
  intros Hfresh.
  unfold getRegionMap, bind, gets, ret.
  rewrite Hfresh; reflexivity.
Qed.

(** Every reply of the backend is of one of the three kinds. *)
Lemma fetch_cases env :
  fetch_not_ok env \/ fetch_threw env \/ exists regions, fetched env regions.
Proof.
  unfold fetch_not_ok, fetch_threw, fetched.
  destruct (fetch_reply env) as [response|e] eqn:Hreply.
  - destruct (ok response) eqn:Hok.
    + destruct (json response) as [regions|e] eqn:Hjson.
      * right; right. exists regions, response. auto.
      * right; left; right. exists response, e. auto.
    + left. exists response. auto.
  - right; left; left. exists e. reflexivity.
Qed.

(** [getRegionMap] always returns, with the map it leaves in the cache, and
    fetches exactly when the opening test asks for a refresh. *)
Lemma getRegionMap_returns env s :
  getRegionMap cfg env s =
  mkRun (after (getRegionMap cfg env s))
        (if needs_refresh (now_check env) (regionMapCache s) then 1%nat else 0%nat)
        (Normal (regionMap (regionMapCache (after (getRegionMap cfg env s))))).
Proof.
  destruct (needs_refresh (now_check env) (regionMapCache s)) eqn:Hstale.
  - destruct (fetch_cases env) as [H | [H | [regions H]]].
    + rewrite getRegionMap_no_regions by auto. reflexivity.
    + rewrite getRegionMap_threw by auto. cbv zeta.
      destruct (fallbackRegion s) as [fb|]; [|reflexivity].
      destruct (JsString.truthy_opt _); reflexivity.
    + destruct regions as [[|r rs]|].
      * rewrite getRegionMap_no_regions by auto. reflexivity.
      * rewrite (getRegionMap_refreshed env s (r :: rs)) by (auto; discriminate).
        reflexivity.
      * rewrite getRegionMap_no_regions by auto. reflexivity.
  - rewrite getRegionMap_fresh by exact Hstale. reflexivity.
Qed.

End CacheFacts.

(** * The router: [getCountryCode] and [middleware] *)

Section RouterFacts.

Variable cfg : option string.

Lemma or_default_code_truthy o : JsString.truthy (or_default_code cfg o) = true.
Proof.
  unfold or_default_code. destruct o as [c|].
  - destruct (JsString.truthy c) eqn:E; [exact E|].
    apply DEFAULT_REGION_CODE_truthy.
  - apply DEFAULT_REGION_CODE_truthy.
Qed.

(** The resolved country code is never the empty string. *)
Lemma getCountryCode_truthy request m :
  JsString.truthy (getCountryCode cfg request m) = true.
Proof.
  unfold getCountryCode, getCountryCode_try. apply or_default_code_truthy.
Qed.

Lemma query_string_or_empty (q : string) :
  (if JsString.truthy q then q else "") = q.
Proof. now destruct q. Qed.

(** The [try] block of [middleware], step by step. *)
Lemma middleware_try_unfold env request s :
  middleware_try cfg env request s =
  let r := getRegionMap cfg env s in
  let countryCode :=
    getCountryCode cfg request (regionMap (regionMapCache (after r))) in
  mkRun (after r) (fetches r)
    match url_segment request with
    | Some segment =>
        Normal (if JsString.includes segment countryCode then next
                else redirect (region_url request countryCode) 307)
    | None => Thrown TypeError
    end.
Proof.
  unfold middleware_try, bind.
  pose proof (getRegionMap_returns cfg env s) as H.
  destruct (getRegionMap cfg env s) as [s1 n1 o1].
  cbn [after fetches outcome] in *. injection H as _ Ho. subst o1.
  rewrite getCountryCode_truthy.
  unfold lift, first_segment_includes, ret.
  destruct (url_segment request) as [segment|].
  - destruct (JsString.includes segment _); cbn [negb andb];
      now rewrite !Nat.add_0_r.
  - now rewrite Nat.add_0_r.
Qed.

(** X15. The logging copy of [middleware] computes the same function: its
    extra branch needs a falsy country code, and there is none. *)
Lemma middleware_verbose_same env request s :
  middleware_verbose cfg env request s = middleware cfg env request s.
Proof.
  unfold middleware_verbose, middleware, try_catch.
  assert (middleware_verbose_try cfg env request s
          = middleware_try cfg env request s) as ->; [|reflexivity].
  unfold middleware_verbose_try, middleware_try, bind.
  destruct (getRegionMap cfg env s) as [s1 n1 [m|e]]; [|reflexivity].
  now rewrite getCountryCode_truthy.
Qed.

(** C1. On the non-error path (the [try] block of [middleware] completes
    normally) the request is passed through unmodified exactly when the first
    path segment of the URL contains the resolved country code as a
    substring; in every other case the response is a 307 redirect to
    [origin/countryCode], followed by the path (nothing for the root path)
    and the query string. *)
Theorem middleware_passes_iff_segment_includes env request s response :
  outcome (middleware_try cfg env request s) = Normal response ->
  let u := nextUrl request in
  let countryCode :=
    getCountryCode cfg request
      (regionMap (regionMapCache (after (getRegionMap cfg env s)))) in
  outcome (middleware cfg env request s) = Normal response /\
  exists segment,
    url_segment request = Some segment /\
    (response = next <-> exists a b, segment = a ++ countryCode ++ b) /\
    (~ (exists a b, segment = a ++ countryCode ++ b) ->
     response =
     redirect (origin u ++ "/" ++ countryCode ++
               (if String.eqb (pathname u) "/" then "" else pathname u) ++
               search u) 307).
Proof.
  intros Hrun u countryCode.
  assert (outcome (middleware cfg env request s) = Normal response) as Hmw.
  { unfold middleware, try_catch.
    destruct (middleware_try cfg env request s) as [s1 n1 [a|e]];
      cbn [outcome] in *; [exact Hrun | discriminate]. }
  split; [exact Hmw|].
  rewrite middleware_try_unfold in Hrun. cbv zeta in Hrun. cbn [outcome] in Hrun.
  fold countryCode in Hrun.
  destruct (url_segment request) as [segment|]; [|discriminate].
  exists segment. split; [reflexivity|].
  rewrite <- JsFacts.includes_substring.
  injection Hrun as Hrun.
  destruct (JsString.includes segment countryCode) eqn:Hinc; subst response.
  - split; [tauto | congruence].
  - split; [split; discriminate|]. intros _.
    unfold region_url. fold u. now rewrite query_string_or_empty.
Qed.

(** C9. [middleware] always answers with a response, whatever the request,
    the state and the world do; and when its [try] block throws, the answer
    of the [catch] block is the 307 redirect to [origin/DEFAULT_REGION_CODE]
    followed by the path (nothing for the root path) and the query string. *)
Theorem middleware_always_responds env request s :
  let u := nextUrl request in
  exists response,
    outcome (middleware cfg env request s) = Normal response /\
    (forall e,
       outcome (middleware_try cfg env request s) = Thrown e ->
       response =
       redirect (origin u ++ "/" ++ DEFAULT_REGION_CODE cfg ++
                 (if String.eqb (pathname u) "/" then "" else pathname u) ++
                 search u) 307).
Proof.
  intros u. unfold middleware, try_catch, middleware_catch, ret.
  destruct (middleware_try cfg env request s) as [s1 n1 [response|e]];
    cbn [outcome].
  - exists response. split; [reflexivity | discriminate].
  - eexists. split; [reflexivity|]. intros _ _.
    unfold region_url. fold u. now rewrite query_string_or_empty.
Qed.

Lemma present_and_known_usable x directory :
  present_and_known x directory = true <-> usable x directory.
Proof.
  unfold present_and_known, usable. destruct x as [k|].
  - rewrite andb_true_iff, JsFacts.truthy_nonempty. split.
    + intros [Hk Hhas]. now exists k.
    + intros (k' & Hk & Hne & Hhas). inversion Hk; subst. auto.
  - split; [discriminate | intros (k & Hk & _); discriminate].
Qed.

Lemma not_usable x directory :
  ~ usable x directory -> present_and_known x directory = false.
Proof.
  intros H. destruct (present_and_known x directory) eqn:E; [|reflexivity].
  apply present_and_known_usable in E. contradiction.
Qed.

(** C3, as the code has it.  [getCountryCode] answers the first match of:
    (1) the first path segment, lower-cased, when it is non-empty and a key
    of the directory; (2) the geolocation header, lower-cased, when it is
    present, non-empty and a key; (3) the default region when it is a key;
    (4) the first-inserted key of the directory when there is one and it is
    not the empty string; (5) the default region code otherwise, that is when
    the directory is empty or its first-inserted key is the empty string.
    The answer is never the empty string.  The three examples of the
    specification hold: keys us and de with path [/de/product] and no header
    give de, path [/] with header US gives us, and a directory with the only
    key de gives de at path [/] without header. *)
Theorem getCountryCode_resolution_order request directory :
  let segment := option_map JsString.toLowerCase (url_segment request) in
  let header :=
    option_map JsString.toLowerCase (headers_get request "x-vercel-ip-country") in
  let code := getCountryCode cfg request directory in
  (forall u, segment = Some u -> u <> "" -> JsMap.has u directory = true ->
             code = u) /\
  (~ usable segment directory ->
   forall v, header = Some v -> v <> "" -> JsMap.has v directory = true ->
             code = v) /\
  (~ usable segment directory -> ~ usable header directory ->
   JsMap.has (DEFAULT_REGION cfg) directory = true ->
   code = DEFAULT_REGION cfg) /\
  (~ usable segment directory -> ~ usable header directory ->
   JsMap.has (DEFAULT_REGION cfg) directory = false ->
   forall k, JsMap.first_key directory = Some k -> k <> "" -> code = k) /\
  (~ usable segment directory -> ~ usable header directory ->
   JsMap.has (DEFAULT_REGION cfg) directory = false ->
   directory = [] \/ JsMap.first_key directory = Some "" ->
   code = DEFAULT_REGION_CODE cfg) /\
  code <> "" /\
  ((forall k, In k (JsMap.keys directory) <-> k = "us" \/ k = "de") ->
   pathname (nextUrl request) = "/de/product" ->
   headers_get request "x-vercel-ip-country" = None ->
   code = "de") /\
  ((forall k, In k (JsMap.keys directory) <-> k = "us" \/ k = "de") ->
   pathname (nextUrl request) = "/" ->
   headers_get request "x-vercel-ip-country" = Some "US" ->
   code = "us") /\
  (JsMap.keys directory = ["de"] ->
   pathname (nextUrl request) = "/" ->
   headers_get request "x-vercel-ip-country" = None ->
   code = "de").
Proof.
  intros segment header code.
  assert (code =
          or_default_code cfg
            (if present_and_known segment directory then segment
             else if present_and_known header directory then header
             else if JsMap.has (DEFAULT_REGION cfg) directory
                  then Some (DEFAULT_REGION cfg)
             else if JsString.truthy_opt (JsMap.first_key directory)
                  then JsMap.first_key directory
             else None)) as Hcode by reflexivity.
  assert (forall x k, x = Some k -> k <> "" -> JsMap.has k directory = true ->
                      present_and_known x directory = true) as Huse.
  { intros x k -> Hne Hhas. apply present_and_known_usable. now exists k. }
  assert (forall k, k <> "" -> or_default_code cfg (Some k) = k) as Hsome.
  { intros k Hne. unfold or_default_code.
    apply JsFacts.truthy_nonempty in Hne. now rewrite Hne. }
  repeat split.
  - intros u Hu Hne Hhas. rewrite Hcode, (Huse _ _ Hu Hne Hhas), Hu. now apply Hsome.
  - intros Hs v Hv Hne Hhas.
    rewrite Hcode, (not_usable _ _ Hs), (Huse _ _ Hv Hne Hhas), Hv. now apply Hsome.
  - intros Hs Hh Hd.
    rewrite Hcode, (not_usable _ _ Hs), (not_usable _ _ Hh), Hd.
    apply Hsome. apply JsFacts.truthy_nonempty. rewrite DEFAULT_REGION_same.
    apply DEFAULT_REGION_CODE_truthy.
  - intros Hs Hh Hd k Hk Hne.
    rewrite Hcode, (not_usable _ _ Hs), (not_usable _ _ Hh), Hd, Hk.
    cbn [JsString.truthy_opt]. apply JsFacts.truthy_nonempty in Hne as Ht.
    rewrite Ht. now apply Hsome.
  - intros Hs Hh Hd Hfirst.
    rewrite Hcode, (not_usable _ _ Hs), (not_usable _ _ Hh), Hd.
    destruct Hfirst as [-> | ->]; reflexivity.
  - apply JsFacts.truthy_nonempty. apply getCountryCode_truthy.
  - intros Hkeys Hpath Hhdr.
    assert (segment = Some "de") as Hseg
      by (unfold segment, url_segment; now rewrite Hpath).
    rewrite Hcode, (Huse _ _ Hseg); [now rewrite Hseg | discriminate |].
    apply JsFacts.has_keys, Hkeys. now right.
  - intros Hkeys Hpath Hhdr.
    assert (segment = Some "") as Hseg
      by (unfold segment, url_segment; now rewrite Hpath).
    assert (header = Some "us") as Hh by (unfold header; now rewrite Hhdr).
    rewrite Hcode, Hseg. cbn [present_and_known JsString.truthy andb].
    rewrite (Huse _ _ Hh); [now rewrite Hh | discriminate |].
    apply JsFacts.has_keys, Hkeys. now left.
  - intros Hkeys Hpath Hhdr.
    assert (segment = Some "") as Hseg
      by (unfold segment, url_segment; now rewrite Hpath).
    assert (header = None) as Hh by (unfold header; now rewrite Hhdr).
    rewrite Hcode, Hseg, Hh. cbn [present_and_known JsString.truthy andb].
    destruct directory as [|[k0 v0] [|? ?]]; try discriminate.
    cbn in Hkeys. injection Hkeys as ->.
    cbn [JsMap.first_key JsString.truthy_opt JsString.truthy].
    unfold JsMap.has. cbn [JsMap.get].
    destruct (String.eqb "de" (DEFAULT_REGION cfg)) eqn:E.
    + apply String.eqb_eq in E. rewrite <- E. reflexivity.
    + reflexivity.
Qed.

End RouterFacts.

(** * The cache: [getRegionMap] *)

Section CacheClaims.

Variable cfg : option string.

(** The state [middleware] leaves is the state [getRegionMap] leaves. *)
Lemma middleware_state env request s :
  after (middleware cfg env request s) = after (getRegionMap cfg env s).
Proof.
  unfold middleware, try_catch. rewrite middleware_try_unfold. cbv zeta.
  destruct (url_segment request); reflexivity.
Qed.

Lemma getRegionMap_keeps_fallback env s fb :
  fallbackRegion s = Some fb ->
  fallbackRegion (after (getRegionMap cfg env s)) = Some fb.
Proof.
  intros Hfb.
  destruct (needs_refresh (now_check env) (regionMapCache s)) eqn:Hstale.
  - destruct (fetch_cases env) as [H | [H | [regions H]]].
    + now rewrite getRegionMap_no_regions by auto.
    + rewrite getRegionMap_threw by auto. cbv zeta. rewrite Hfb.
      now destruct (JsString.truthy_opt _).
    + destruct regions as [[|r rs]|].
      * now rewrite getRegionMap_no_regions by auto.
      * rewrite (getRegionMap_refreshed cfg env s (r :: rs)) by (auto; discriminate).
        cbv zeta. cbn [after fallbackRegion]. now rewrite Hfb.
      * now rewrite getRegionMap_no_regions by auto.
  - now rewrite getRegionMap_fresh.
Qed.

(** A first key, once there, stays the first key. *)
Lemma getRegionMap_keeps_first_key env s k :
  JsMap.first_key (regionMap (regionMapCache s)) = Some k ->
  JsMap.first_key (regionMap (regionMapCache (after (getRegionMap cfg env s))))
  = Some k.
Proof.
  intros Hk.
  destruct (needs_refresh (now_check env) (regionMapCache s)) eqn:Hstale.
  - destruct (fetch_cases env) as [H | [H | [regions H]]].
    + now rewrite getRegionMap_no_regions by auto.
    + rewrite getRegionMap_threw by auto. cbv zeta.
      destruct (fallbackRegion s) as [fb|]; [|exact Hk].
      destruct (JsString.truthy_opt _); [exact Hk|].
      cbn [after regionMapCache regionMap]. now apply first_key_add_fallback.
    + destruct regions as [[|r rs]|].
      * now rewrite getRegionMap_no_regions by auto.
      * rewrite (getRegionMap_refreshed cfg env s (r :: rs)) by (auto; discriminate).
        cbv zeta. cbn [after regionMapCache regionMap].
        now apply first_key_add_regions.
      * now rewrite getRegionMap_no_regions by auto.
  - now rewrite getRegionMap_fresh.
Qed.

(** X16. A directory whose first-inserted key is the empty string is
    refreshed by every later call, whatever the timestamp says. *)
Lemma empty_first_key_refetches_forever envs s :
  JsMap.first_key (regionMap (regionMapCache s)) = Some "" ->
  snd (getRegionMap_calls cfg envs s) = length envs.
Proof.
  revert s. induction envs as [|env envs IH]; intros s Hk; [reflexivity|].
  cbn [getRegionMap_calls length].
  specialize (IH _ (getRegionMap_keeps_first_key env s "" Hk)).
  destruct (getRegionMap_calls cfg envs (after (getRegionMap cfg env s)))
    as [s' n]. cbn [snd] in *. subst n.
  rewrite getRegionMap_returns. cbn [fetches].
  unfold needs_refresh. rewrite Hk. reflexivity.
Qed.

(** C2, as the code has it, for a directory that is empty or whose
    first-inserted key is a non-empty string.  A call of [getRegionMap]
    changes the timestamp only when it refreshes, and then only in two ways:
    at the end of a fetch that succeeded with a non-empty region list
    (whether or not an entry was written), or in the [catch] block after a
    thrown fetch, when the directory is empty and a fallback region is set.
    In both cases the new timestamp is the clock at that moment.  A status
    that is not a success and an empty region list never change it.
    Directories whose first-inserted key is the empty string are not
    covered. *)
Theorem timestamp_changes_only_on_refresh_or_fallback env s :
  let s' := after (getRegionMap cfg env s) in
  JsMap.first_key (regionMap (regionMapCache s)) <> Some "" ->
  regionMapUpdated (regionMapCache s') <> regionMapUpdated (regionMapCache s) ->
  needs_refresh (now_check env) (regionMapCache s) = true /\
  regionMapUpdated (regionMapCache s') = now_write env /\
  ((exists regions, fetched env (Some regions) /\ regions <> []) \/
   (fetch_threw env /\ fallbackRegion s <> None /\
    regionMap (regionMapCache s) = [])).
Proof.
  cbv zeta. intros Hfirst.
  destruct (needs_refresh (now_check env) (regionMapCache s)) eqn:Hstale.
  - destruct (fetch_cases env) as [H | [H | [regions H]]].
    + rewrite getRegionMap_no_regions by auto. cbn [after]. congruence.
    + rewrite getRegionMap_threw by auto. cbv zeta.
      destruct (fallbackRegion s) as [fb|] eqn:Hfb; [|cbn [after]; congruence].
      destruct (JsString.truthy_opt _) eqn:Ht; [cbn [after]; congruence|].
      cbn [after regionMapCache regionMapUpdated]. intros _.
      split; [reflexivity|]. split; [reflexivity|]. right.
      split; [exact H|]. split; [discriminate|].
      destruct (regionMap (regionMapCache s)) as [|[k0 v0] m]; [reflexivity|].
      cbn in Ht, Hfirst. apply JsFacts.falsy_empty in Ht. congruence.
    + destruct regions as [[|r rs]|].
      * rewrite getRegionMap_no_regions by auto. cbn [after]. congruence.
      * rewrite (getRegionMap_refreshed cfg env s (r :: rs)) by (auto; discriminate).
        cbv zeta. cbn [after regionMapCache regionMapUpdated]. intros _.
        split; [reflexivity|]. split; [reflexivity|]. left.
        exists (r :: rs). split; [exact H | discriminate].
      * rewrite getRegionMap_no_regions by auto. cbn [after]. congruence.
  - rewrite getRegionMap_fresh by exact Hstale. cbn [after]. congruence.
Qed.

(** C4, as the code has it.  When the first call leaves a directory whose
    first-inserted key is a non-empty string, a second call made no more
    than 3600 seconds after the last update performs no fetch, changes
    nothing and answers the cached map; the two calls together fetch as
    often as the first one alone, which is at most once. *)
Theorem second_call_on_fresh_cache_does_not_fetch env1 env2 s :
  let r1 := getRegionMap cfg env1 s in
  let s1 := after r1 in
  JsString.truthy_opt (JsMap.first_key (regionMap (regionMapCache s1))) = true ->
  now_check env2 - regionMapUpdated (regionMapCache s1) <= 3600 * 1000 ->
  getRegionMap cfg env2 s1 =
    mkRun s1 0%nat (Normal (regionMap (regionMapCache s1))) /\
  getRegionMap_calls cfg [env1; env2] s = (s1, fetches r1) /\
  fetches r1 =
    (if needs_refresh (now_check env1) (regionMapCache s) then 1%nat else 0%nat).
Proof.
  intros r1 s1 Hkey Hage.
  assert (needs_refresh (now_check env2) (regionMapCache s1) = false) as Hfresh.
  { unfold needs_refresh. rewrite Hkey. cbn [negb orb].
    apply Z.ltb_ge. lia. }
  assert (getRegionMap cfg env2 s1 =
          mkRun s1 0%nat (Normal (regionMap (regionMapCache s1)))) as H2
    by now apply getRegionMap_fresh.
  split; [exact H2|]. split.
  - cbn [getRegionMap_calls]. fold r1. fold s1. rewrite H2.
    cbn [after fetches]. now rewrite !Nat.add_0_r.
  - unfold r1. rewrite getRegionMap_returns. reflexivity.
Qed.

(** C5. After a refresh that fetched a non-empty region list, every country
    code listed under a region of the reply is a key of the directory, and
    it is mapped to the last region of the reply that writes that key: the
    last writer wins on duplicates, and a code written by one region only is
    mapped to that region. *)
Theorem refresh_maps_every_listed_code env s regions region code :
  needs_refresh (now_check env) (regionMapCache s) = true ->
  fetched env (Some regions) ->
  In region regions ->
  lists_code region code ->
  let directory := regionMap (regionMapCache (after (getRegionMap cfg env s))) in
  JsMap.has code directory = true /\
  (exists winner, last_writer regions code winner) /\
  (forall winner,
     last_writer regions code winner -> JsMap.get code directory = Some winner) /\
  ((forall q, In q regions -> writes_key q code -> q = region) ->
   JsMap.get code directory = Some region).
Proof.
  intros Hstale Hfetch Hin Hlists directory.
  assert (regions <> []) as Hne by (destruct regions; [contradiction | discriminate]).
  assert (directory = add_regions regions (regionMap (regionMapCache s))) as Hdir.
  { unfold directory.
    now rewrite (getRegionMap_refreshed cfg env s regions) by assumption. }
  destruct (last_writer_exists code regions region Hin
              (lists_code_writes _ _ Hlists)) as [winner Hwin].
  assert (forall w, last_writer regions code w -> JsMap.get code directory = Some w)
    as Hget by (intros w Hw; rewrite Hdir; now apply get_add_regions_last).
  split; [|split; [|split]].
  - apply JsFacts.has_get. exists winner. now apply Hget.
  - now exists winner.
  - exact Hget.
  - intros Honly. destruct (last_writer_In _ _ _ Hwin) as [Hw1 Hw2].
    rewrite <- (Honly winner Hw1 Hw2). now apply Hget.
Qed.

(** C6. When no fallback region is set, a refresh that fetched a non-empty
    region list sets it to the first region that lists the default region
    code, and to the first region of the list when no region lists it.
    Once set, the fallback region is the same after every later call of
    [getRegionMap] and after every later request served by [middleware]. *)
Theorem fallback_region_chosen_once :
  (forall env s regions,
     needs_refresh (now_check env) (regionMapCache s) = true ->
     fetched env (Some regions) -> regions <> [] ->
     fallbackRegion s = None ->
     let chosen := fallbackRegion (after (getRegionMap cfg env s)) in
     (forall region,
        first_listing regions (DEFAULT_REGION_CODE cfg) region ->
        chosen = Some region) /\
     (forall first rest,
        regions = first :: rest ->
        Forall (fun q => ~ lists_code q (DEFAULT_REGION_CODE cfg)) regions ->
        chosen = Some first)) /\
  (forall envs s fb,
     fallbackRegion s = Some fb ->
     fallbackRegion (fst (getRegionMap_calls cfg envs s)) = Some fb) /\
  (forall reqs s fb,
     fallbackRegion s = Some fb ->
     fallbackRegion (serve cfg reqs s) = Some fb).
Proof.
  split; [|split].
  - intros env s regions Hstale Hfetch Hne Hnone chosen.
    assert (chosen = choose_fallback cfg regions) as ->.
    { unfold chosen.
      rewrite (getRegionMap_refreshed cfg env s regions) by assumption.
      cbv zeta. cbn [after fallbackRegion]. now rewrite Hnone. }
    split.
    + intros region Hfirst. now apply choose_fallback_first.
    + intros first rest -> Hnobody.
      now rewrite choose_fallback_head by exact Hnobody.
  - induction envs as [|env envs IH]; intros s fb Hfb; [exact Hfb|].
    cbn [getRegionMap_calls].
    specialize (IH (after (getRegionMap cfg env s)) fb
                   (getRegionMap_keeps_fallback env s fb Hfb)).
    destruct (getRegionMap_calls cfg envs (after (getRegionMap cfg env s))).
    exact IH.
  - induction reqs as [|[env request] reqs IH]; intros s fb Hfb; [exact Hfb|].
    cbn [serve]. apply IH. rewrite middleware_state.
    now apply getRegionMap_keeps_fallback.
Qed.

(** C7. When the refresh fetch answers with a status that is not a success,
    or succeeds with no region list or an empty one, [getRegionMap] returns
    the existing map normally and leaves the mapping, the timestamp and the
    fallback region as they were. *)
Theorem refresh_without_regions_changes_nothing env s :
  needs_refresh (now_check env) (regionMapCache s) = true ->
  fetch_not_ok env \/ fetched env None \/ fetched env (Some []) ->
  let r := getRegionMap cfg env s in
  outcome r = Normal (regionMap (regionMapCache s)) /\
  after r = s /\
  regionMap (regionMapCache (after r)) = regionMap (regionMapCache s) /\
  regionMapUpdated (regionMapCache (after r)) = regionMapUpdated (regionMapCache s) /\
  fallbackRegion (after r) = fallbackRegion s /\
  fetches r = 1%nat.
Proof.
  intros Hstale Hreply r. unfold r.
  rewrite getRegionMap_no_regions by assumption.
  cbn [after outcome fetches]. auto 10.
Qed.

(** What the [catch] block does, when the directory is empty in the sense
    of the code (no non-empty first key): with a fallback region the map
    holds, for every non-empty code the fallback region lists, the fallback
    region, and everything else as before; an empty map ends up with exactly
    those keys.  With a non-empty first key, or without a fallback region,
    the state is untouched.  The call returns the map in every case. *)
Lemma getRegionMap_threw_behaviour env s :
  needs_refresh (now_check env) (regionMapCache s) = true ->
  fetch_threw env ->
  let r := getRegionMap cfg env s in
  let m := regionMap (regionMapCache s) in
  outcome r = Normal (regionMap (regionMapCache (after r))) /\
  (forall fb,
     fallbackRegion s = Some fb ->
     JsString.truthy_opt (JsMap.first_key m) = false ->
     forall k,
       JsMap.get k (regionMap (regionMapCache (after r))) =
       if lists_nonempty_codeb fb k then Some fb else JsMap.get k m) /\
  (fallbackRegion s = None \/ JsString.truthy_opt (JsMap.first_key m) = true ->
   after r = s).
Proof.
  intros Hstale Hthrew r m. unfold r.
  split; [|split].
  - rewrite getRegionMap_returns at 1. reflexivity.
  - intros fb Hfb Hempty k.
    rewrite getRegionMap_threw by assumption. cbv zeta. fold m.
    rewrite Hfb, Hempty. cbn [after regionMapCache regionMap].
    apply get_add_fallback.
  - intros H. rewrite getRegionMap_threw by assumption. cbv zeta. fold m.
    destruct (fallbackRegion s) as [fb|]; [|reflexivity].
    destruct H as [H|H]; [discriminate|]. now rewrite H.
Qed.

(** C10. A country without [iso_2] in a fetched region list leaves the key
    [""] in the directory after the refresh, mapped to the last region that
    writes that key.  The loop of the [catch] block writes the non-empty
    codes the fallback region lists and nothing else: a country without
    [iso_2] is skipped, the key [""] is never touched, and a thrown fetch
    leaves the entry for [""] as it was. *)
Theorem missing_iso_2_becomes_empty_key :
  (forall env s regions region cs c,
     needs_refresh (now_check env) (regionMapCache s) = true ->
     fetched env (Some regions) ->
     In region regions -> countries region = Some cs -> In c cs ->
     iso_2 c = None ->
     let directory := regionMap (regionMapCache (after (getRegionMap cfg env s))) in
     JsMap.has "" directory = true /\
     (forall winner,
        last_writer regions "" winner -> JsMap.get "" directory = Some winner)) /\
  (forall fb m k,
     (lists_code fb k /\ k <> "" -> JsMap.get k (add_fallback fb m) = Some fb) /\
     (~ (lists_code fb k /\ k <> "") ->
      JsMap.get k (add_fallback fb m) = JsMap.get k m)) /\
  (forall fb m, JsMap.get "" (add_fallback fb m) = JsMap.get "" m) /\
  (forall env s,
     needs_refresh (now_check env) (regionMapCache s) = true ->
     fetch_threw env ->
     JsMap.get "" (regionMap (regionMapCache (after (getRegionMap cfg env s)))) =
     JsMap.get "" (regionMap (regionMapCache s))).
Proof.
  assert (forall fb, lists_nonempty_codeb fb "" = false) as Hnever.
  { intros fb. destruct (lists_nonempty_codeb fb "") eqn:E; [|reflexivity].
    apply lists_nonempty_codeb_spec in E. destruct E as [_ E]. congruence. }
  assert (forall fb m, JsMap.get "" (add_fallback fb m) = JsMap.get "" m) as Hfb.
  { intros fb m. now rewrite get_add_fallback, Hnever. }
  split; [|split; [|split]].
  - intros env s regions region cs c Hstale Hfetch Hin Hcs Hc Hiso directory.
    assert (regions <> []) as Hne
      by (destruct regions; [contradiction | discriminate]).
    assert (directory = add_regions regions (regionMap (regionMapCache s))) as Hdir.
    { unfold directory.
      now rewrite (getRegionMap_refreshed cfg env s regions) by assumption. }
    assert (writes_key region "") as Hw.
    { exists cs, c. unfold key_of_country. now rewrite Hiso. }
    destruct (last_writer_exists "" regions region Hin Hw) as [winner Hwin].
    assert (forall w, last_writer regions "" w -> JsMap.get "" directory = Some w)
      as Hget by (intros w Hlast; rewrite Hdir; now apply get_add_regions_last).
    split; [|exact Hget].
    apply JsFacts.has_get. exists winner. now apply Hget.
  - intros fb m k. rewrite get_add_fallback. split.
    + intros H. apply lists_nonempty_codeb_spec in H. now rewrite H.
    + intros H. destruct (lists_nonempty_codeb fb k) eqn:E; [|reflexivity].
      apply lists_nonempty_codeb_spec in E. contradiction.
  - exact Hfb.
  - intros env s Hstale Hthrew.
    rewrite getRegionMap_threw by assumption. cbv zeta.
    destruct (fallbackRegion s) as [fb|]; [|reflexivity].
    destruct (JsString.truthy_opt _); [reflexivity|].
    cbn [after regionMapCache regionMap]. apply Hfb.
Qed.

End CacheClaims.

(** * Runs on concrete inputs *)

Example split_root : JsString.split "/" "/" = [""; ""].
Proof. reflexivity. Qed.

Example split_de_product :
  JsString.split "/" "/de/product" = [""; "de"; "product"].
Proof. reflexivity. Qed.

Example split_without_slash : JsString.split "/" "cart" = ["cart"].
Proof. reflexivity. Qed.

Example includes_users : JsString.includes "users" "us" = true.
Proof. reflexivity. Qed.

Example toLowerCase_US : JsString.toLowerCase "US" = "us".
Proof. reflexivity. Qed.

(** The first request after start-up, with a backend that serves the two
    sample regions and no default region configured. *)
Example first_refresh :
  getRegionMap None (mkEnv 1000 (reply_regions [region_na; region_eu]) 1100)
    (init_state 0) =
  mkRun
    (mkState
       (mkCache [("us", region_na); ("ca", region_na);
                 ("de", region_eu); ("fr", region_eu)] 1100)
       (Some region_na))
    1%nat
    (Normal [("us", region_na); ("ca", region_na);
             ("de", region_eu); ("fr", region_eu)]).
Proof. reflexivity. Qed.

(** Pass-through, redirect construction and query preservation, as listed
    among the testable properties. *)
Example pass_through_us_products :
  outcome (middleware None (mkEnv 1000 (reply_regions [region_na; region_eu]) 1100)
             (request_to "/us/products" "?x=1" []) (init_state 0))
  = Normal next.
Proof. reflexivity. Qed.

Example redirect_root_to_de :
  outcome (middleware None (mkEnv 1000 (reply_regions [region_eu]) 1100)
             (request_to "/" "" []) (init_state 0))
  = Normal (redirect "https://shop.example/de" 307).
Proof. reflexivity. Qed.

Example redirect_keeps_query :
  outcome (middleware None (mkEnv 1000 (reply_regions [region_eu]) 1100)
             (request_to "/cart" "?a=b" [("x-vercel-ip-country", "FR")])
             (init_state 0))
  = Normal (redirect "https://shop.example/fr/cart?a=b" 307).
Proof. reflexivity. Qed.

(** The substring test lets [/users] through when the code is us. *)
Example users_passes_as_us :
  outcome (middleware None (mkEnv 1000 (reply_regions [region_na]) 1100)
             (request_to "/users" "" []) (init_state 0))
  = Normal next.
Proof. reflexivity. Qed.

(** * Instances of the theorems and inputs on which the stated claims fail *)

(** C1 at the request [/users] with resolved code us. *)
Lemma middleware_passes_iff_segment_includes_witness :
  outcome (middleware None (mkEnv 1000 (reply_regions [region_na]) 1100)
             (request_to "/users" "" []) (init_state 0))
  = Normal next.
Proof.
  exact (proj1 (middleware_passes_iff_segment_includes None
                  (mkEnv 1000 (reply_regions [region_na]) 1100)
                  (request_to "/users" "" []) (init_state 0) next eq_refl)).
Defined.

(** C2 as stated fails.  The backend first serves one region without
    countries: the refresh succeeds, writes no entry, and yet moves the
    timestamp from 0 to 1200 and sets the fallback region.  The next fetch
    throws: the directory is still empty, the [catch] block runs the
    fallback loop and moves the timestamp to 2300. *)
Lemma timestamp_moves_after_thrown_fetch :
  let s1 := after (getRegionMap None (mkEnv 1000 (reply_regions [region_bare]) 1200)
                     (init_state 0)) in
  let s2 := after (getRegionMap None (mkEnv 2000 reply_network_failure 2300) s1) in
  regionMap (regionMapCache s1) = [] /\
  regionMapUpdated (regionMapCache s1) = 1200 /\
  fetch_reply (mkEnv 2000 reply_network_failure 2300) = Thrown NetworkError /\
  regionMap (regionMapCache s2) = [] /\
  regionMapUpdated (regionMapCache s2) = 2300.
Proof. cbv zeta. repeat split. Qed.

(** C2, amended, at the first refresh after start-up. *)
Lemma timestamp_changes_only_on_refresh_or_fallback_witness :
  regionMapUpdated
    (regionMapCache
       (after (getRegionMap None (mkEnv 1000 (reply_regions [region_na]) 1100)
                 (init_state 0)))) = 1100.
Proof.
  refine (proj1 (proj2 (timestamp_changes_only_on_refresh_or_fallback None
                          (mkEnv 1000 (reply_regions [region_na]) 1100)
                          (init_state 0) _ _))).
  - discriminate.
  - vm_compute. discriminate.
Defined.

(** C3 as stated fails.  A refresh with a country record that has no
    [iso_2] produces a directory whose first-inserted key is the empty
    string.  For the request [/products] without geolocation header the
    stated order answers that first key, the empty string; the code answers
    the default region code. *)
Lemma resolution_never_answers_empty_first_key :
  let directory :=
    regionMap (regionMapCache
      (after (getRegionMap None (mkEnv 1000 (reply_regions [region_nowhere]) 1100)
                (init_state 0)))) in
  let request := request_to "/products" "" [] in
  directory = [("", region_nowhere)] /\
  resolve_as_specified None request directory = "" /\
  getCountryCode None request directory = "us".
Proof. cbv zeta. repeat split. Qed.

(** C3, amended, at the third example of the specification. *)
Lemma getCountryCode_resolution_order_witness :
  getCountryCode None (request_to "/" "" []) [("de", region_eu)] = "de".
Proof.
  pose proof (getCountryCode_resolution_order None (request_to "/" "" [])
                [("de", region_eu)]) as H.
  cbv zeta in H.
  exact (proj2 (proj2 (proj2 (proj2 (proj2 (proj2 (proj2 (proj2 H)))))))
           eq_refl eq_refl eq_refl).
Defined.

(** C4 as stated fails.  Two calls 1000 ms apart, right after start-up,
    with a backend that answers both times with an error status: the
    directory stays empty, so the second call fetches as well. *)
Lemma two_calls_in_window_fetch_twice :
  getRegionMap_calls None
    [mkEnv 1000 reply_unavailable 1100; mkEnv 2000 reply_unavailable 2100]
    (init_state 0)
  = (init_state 0, 2%nat) /\
  2000 - regionMapUpdated (regionMapCache (init_state 0)) < 3600 * 1000.
Proof. split; [reflexivity | vm_compute; reflexivity]. Qed.

(** C4, amended, for a successful first call and a second one 4 s later. *)
Lemma second_call_on_fresh_cache_does_not_fetch_witness :
  getRegionMap_calls None
    [mkEnv 1000 (reply_regions [region_na]) 1100; mkEnv 5000 reply_unavailable 5100]
    (init_state 0)
  = (mkState (mkCache [("us", region_na); ("ca", region_na)] 1100) (Some region_na),
     1%nat).
Proof.
  refine (proj1 (proj2 (second_call_on_fresh_cache_does_not_fetch None
                          (mkEnv 1000 (reply_regions [region_na]) 1100)
                          (mkEnv 5000 reply_unavailable 5100)
                          (init_state 0) _ _))).
  - reflexivity.
  - vm_compute. discriminate.
Defined.

(** C5 at a reply in which fr is listed by two regions: the later one
    wins. *)
Lemma refresh_maps_every_listed_code_witness :
  JsMap.get "fr"
    (regionMap (regionMapCache
       (after (getRegionMap None
                 (mkEnv 1000 (reply_regions [region_eu; region_b]) 1100)
                 (init_state 0)))))
  = Some region_b.
Proof.
  refine (proj1 (proj2 (proj2 (refresh_maps_every_listed_code None
                          (mkEnv 1000 (reply_regions [region_eu; region_b]) 1100)
                          (init_state 0) [region_eu; region_b] region_eu "fr"
                          eq_refl _ _ _))) region_b _).
  - eexists. repeat split.
  - left. reflexivity.
  - exists [country "de"; country "fr"], (country "fr").
    split; [reflexivity|]. split; [right; left; reflexivity | reflexivity].
  - exists [region_eu], []. split; [reflexivity|]. split.
    + exists [country "fr"], (country "fr").
      split; [reflexivity|]. split; [left; reflexivity | reflexivity].
    + constructor.
Defined.

(** C6 at a reply whose second region lists the default code us. *)
Lemma fallback_region_chosen_once_witness :
  fallbackRegion
    (after (getRegionMap None
              (mkEnv 1000 (reply_regions [region_eu; region_na]) 1100)
              (init_state 0)))
  = Some region_na.
Proof.
  refine (proj1 (proj1 (fallback_region_chosen_once None)
                   (mkEnv 1000 (reply_regions [region_eu; region_na]) 1100)
                   (init_state 0) [region_eu; region_na] eq_refl _ _ eq_refl)
                region_na _).
  - eexists. repeat split.
  - discriminate.
  - exists [region_eu], []. split; [reflexivity|]. split.
    + exists [country "us"; country "ca"], (country "us").
      split; [reflexivity|]. split; [left; reflexivity | reflexivity].
    + constructor; [|constructor].
      intros (cs & c & Hcs & Hin & Hiso). injection Hcs as <-.
      destruct Hin as [<- | [<- | []]]; discriminate.
Defined.

(** C7 at a stale cache and a backend that answers with an error status. *)
Lemma refresh_without_regions_changes_nothing_witness :
  after (getRegionMap None (mkEnv 4000000 reply_unavailable 4000100)
           (mkState (mkCache [("de", region_eu)] 1100) (Some region_eu)))
  = mkState (mkCache [("de", region_eu)] 1100) (Some region_eu).
Proof.
  refine (proj1 (proj2 (refresh_without_regions_changes_nothing None
                          (mkEnv 4000000 reply_unavailable 4000100)
                          (mkState (mkCache [("de", region_eu)] 1100) (Some region_eu))
                          eq_refl _))).
  left. eexists. split; reflexivity.
Defined.

(** C8 fails on the code.  The first reply carries region A, whose first
    country record has no [iso_2]: the directory gets the first key [""] and
    A becomes the fallback region.  The second reply carries region B for
    fr.  The third fetch throws: the directory is not empty, but its first
    key is the empty string, so the [catch] block runs the fallback loop and
    puts fr back under A. *)
Lemma catch_block_overwrites_nonempty_directory :
  let s1 := after (getRegionMap None (mkEnv 1000 (reply_regions [region_a]) 1100)
                     (init_state 0)) in
  let s2 := after (getRegionMap None (mkEnv 2000 (reply_regions [region_b]) 2100)
                     s1) in
  let s3 := after (getRegionMap None (mkEnv 3000 reply_network_failure 3100) s2) in
  fallbackRegion s2 = Some region_a /\
  regionMap (regionMapCache s2) = [("", region_a); ("fr", region_b)] /\
  regionMap (regionMapCache s3) = [("", region_a); ("fr", region_a)] /\
  regionMapUpdated (regionMapCache s3) = 3100.
Proof. cbv zeta. repeat split. Qed.

(** The fallback example of the specification: fallback region fr covering
    fr, empty directory, thrown fetch. *)
Example fallback_on_error :
  getRegionMap None (mkEnv 1000 reply_network_failure 1100)
    (mkState (mkCache [] 0) (Some (region_of "fr" ["fr"])))
  = mkRun (mkState (mkCache [("fr", region_of "fr" ["fr"])] 1100)
                   (Some (region_of "fr" ["fr"])))
          1%nat (Normal [("fr", region_of "fr" ["fr"])]).
Proof. reflexivity. Qed.

(** C9 at a request whose path has no slash, so that the [try] block
    throws. *)
Lemma middleware_always_responds_witness :
  outcome (middleware None (mkEnv 1000 (reply_regions [region_eu]) 1100)
             (request_to "cart" "?a=b" []) (init_state 0))
  = Normal (redirect "https://shop.example/uscart?a=b" 307).
Proof.
  destruct (middleware_always_responds None
              (mkEnv 1000 (reply_regions [region_eu]) 1100)
              (request_to "cart" "?a=b" []) (init_state 0))
    as (response & Hrun & Hcatch).
  rewrite Hrun. f_equal. exact (Hcatch TypeError eq_refl).
Defined.

(** C10 at a reply with a country record without [iso_2]. *)
Lemma missing_iso_2_becomes_empty_key_witness :
  JsMap.has ""
    (regionMap (regionMapCache
       (after (getRegionMap None (mkEnv 1000 (reply_regions [region_a]) 1100)
                 (init_state 0)))))
  = true.
Proof.
  refine (proj1 (proj1 (missing_iso_2_becomes_empty_key None)
                   (mkEnv 1000 (reply_regions [region_a]) 1100) (init_state 0)
                   [region_a] region_a [country_without_code; country "fr"]
                   country_without_code eq_refl _ _ eq_refl _ eq_refl)).
  - eexists. repeat split.
  - left. reflexivity.
  - left. reflexivity.
Defined.

(** * Further properties of the cache *)

Section CacheProperties.

Variable cfg : option string.

(** The three ways a call of [getRegionMap] can end: nothing changed; the
    reply was merged into the directory; the fallback loop ran. *)
Lemma getRegionMap_cases env s :
  let m := regionMap (regionMapCache s) in
  (exists n, getRegionMap cfg env s = mkRun s n (Normal m)) \/
  (exists regions,
     regions <> [] /\ fetched env (Some regions) /\
     needs_refresh (now_check env) (regionMapCache s) = true /\
     getRegionMap cfg env s =
     mkRun (mkState (mkCache (add_regions regions m) (now_write env))
                    (match fallbackRegion s with
                     | Some fb => Some fb
                     | None => choose_fallback cfg regions
                     end))
           1%nat (Normal (add_regions regions m))) \/
  (exists fb,
     fallbackRegion s = Some fb /\ fetch_threw env /\
     JsString.truthy_opt (JsMap.first_key m) = false /\
     getRegionMap cfg env s =
     mkRun (mkState (mkCache (add_fallback fb m) (now_write env)) (Some fb))
           1%nat (Normal (add_fallback fb m))).
Proof.
  cbv zeta.
  destruct (needs_refresh (now_check env) (regionMapCache s)) eqn:Hstale.
  - destruct (fetch_cases env) as [H | [H | [regions H]]].
    + left. exists 1%nat. now apply getRegionMap_no_regions; auto.
    + rewrite getRegionMap_threw by auto. cbv zeta.
      destruct (fallbackRegion s) as [fb|] eqn:Hfb;
        [|left; now exists 1%nat].
      destruct (JsString.truthy_opt _) eqn:Hkey; [left; now exists 1%nat|].
      right; right. exists fb. auto.
    + destruct regions as [[|r rs]|].
      * left. exists 1%nat. now apply getRegionMap_no_regions; auto.
      * right; left. exists (r :: rs).
        split; [discriminate|]. split; [exact H|]. split; [reflexivity|].
        apply getRegionMap_refreshed; [exact Hstale | exact H | discriminate].
      * left. exists 1%nat. now apply getRegionMap_no_regions; auto.
  - left. exists 0%nat. now apply getRegionMap_fresh.
Qed.

Lemma has_add_region k m region :
  JsMap.has k m = true -> JsMap.has k (add_region m region) = true.
Proof.
  unfold JsMap.has. rewrite get_add_region.
  now destruct (writes_keyb region k).
Qed.

Lemma has_add_regions k regions m :
  JsMap.has k m = true -> JsMap.has k (add_regions regions m) = true.
Proof.
  unfold add_regions. revert m.
  induction regions as [|r regions IH]; intros m H; [exact H|].
  cbn [fold_left]. apply IH. now apply has_add_region.
Qed.

Lemma has_add_fallback k fb m :
  JsMap.has k m = true -> JsMap.has k (add_fallback fb m) = true.
Proof.
  unfold JsMap.has. rewrite get_add_fallback.
  now destruct (lists_nonempty_codeb fb k).
Qed.

(** One call never removes a key. *)
Lemma getRegionMap_keeps_keys env s k :
  JsMap.has k (regionMap (regionMapCache s)) = true ->
  JsMap.has k (regionMap (regionMapCache (after (getRegionMap cfg env s)))) = true.
Proof.
  intros Hk.
  destruct (getRegionMap_cases env s)
    as [[n ->] | [(regions & _ & _ & _ & ->) | (fb & _ & _ & _ & ->)]];
    cbn [after regionMapCache regionMap].
  - exact Hk.
  - now apply has_add_regions.
  - now apply has_add_fallback.
Qed.

Lemma choose_fallback_some regions :
  regions <> [] -> choose_fallback cfg regions <> None.
Proof.
  unfold choose_fallback. intros Hne.
  destruct (find (has_default_country cfg) regions); [discriminate|].
  destruct regions; [congruence | discriminate].
Qed.

Lemma well_keyed_add_region m region :
  well_keyed m -> well_keyed (add_region m region).
Proof.
  intros Hm k r. rewrite get_add_region.
  destruct (writes_keyb region k) eqn:E.
  - intros [= <-]. now apply writes_keyb_spec.
  - apply Hm.
Qed.

Lemma well_keyed_add_regions regions m :
  well_keyed m -> well_keyed (add_regions regions m).
Proof.
  unfold add_regions. revert m.
  induction regions as [|r regions IH]; intros m H; [exact H|].
  cbn [fold_left]. apply IH. now apply well_keyed_add_region.
Qed.

Lemma well_keyed_add_fallback fb m :
  well_keyed m -> well_keyed (add_fallback fb m).
Proof.
  intros Hm k r. rewrite get_add_fallback.
  destruct (lists_nonempty_codeb fb k) eqn:E.
  - intros [= <-]. apply lists_nonempty_codeb_spec in E.
    now apply lists_code_writes.
  - apply Hm.
Qed.

Lemma getRegionMap_keeps_well_keyed env s :
  well_keyed (regionMap (regionMapCache s)) ->
  well_keyed (regionMap (regionMapCache (after (getRegionMap cfg env s)))).
Proof.
  intros Hs.
  destruct (getRegionMap_cases env s)
    as [[n ->] | [(regions & _ & _ & _ & ->) | (fb & _ & _ & _ & ->)]];
    cbn [after regionMapCache regionMap].
  - exact Hs.
  - now apply well_keyed_add_regions.
  - now apply well_keyed_add_fallback.
Qed.

Lemma looks_empty_falsy m :
  looks_empty m <-> JsString.truthy_opt (JsMap.first_key m) = false.
Proof.
  unfold looks_empty. destruct (JsMap.first_key m) as [k|]; cbn.
  - rewrite JsFacts.falsy_empty. split.
    + intros [H|H]; congruence.
    + intros ->. now right.
  - split; auto.
Qed.

End CacheProperties.

Section CacheExtras.

Variable cfg : option string.

Lemma fetched_functional env x y : fetched env x -> fetched env y -> x = y.
Proof.
  intros (r1 & H1 & _ & J1) (r2 & H2 & _ & J2).
  rewrite H1 in H2. injection H2 as <-. rewrite J1 in J2. now injection J2.
Qed.

Lemma fetched_not_threw env x : fetched env x -> fetch_threw env -> False.
Proof.
  intros (r1 & H1 & _ & J1) [[e H2] | (r2 & e & H2 & _ & J2)].
  - congruence.
  - rewrite H1 in H2. injection H2 as <-. congruence.
Qed.

Lemma serve_keeps_keys reqs s k :
  JsMap.has k (regionMap (regionMapCache s)) = true ->
  JsMap.has k (regionMap (regionMapCache (serve cfg reqs s))) = true.
Proof.
  revert s. induction reqs as [|[env request] reqs IH]; intros s Hk; [exact Hk|].
  cbn [serve]. apply IH. rewrite middleware_state.
  now apply getRegionMap_keeps_keys.
Qed.

(** X1. The directory only grows: a key that is in the directory is still
    in it after a call of [getRegionMap], whatever the backend answers, and
    after any sequence of requests served by [middleware].  A country the
    backend no longer lists is never evicted. *)
Theorem directory_never_loses_a_key k s :
  JsMap.has k (regionMap (regionMapCache s)) = true ->
  (forall env,
     JsMap.has k (regionMap (regionMapCache (after (getRegionMap cfg env s))))
     = true) /\
  (forall reqs,
     JsMap.has k (regionMap (regionMapCache (serve cfg reqs s))) = true).
Proof.
  intros Hk. split.
  - intros env. now apply getRegionMap_keeps_keys.
  - intros reqs. now apply serve_keeps_keys.
Qed.

(** X2. A refresh merges the reply into the directory: a key that no region
    of the fetched list writes keeps the region it had before the call. *)
Theorem refresh_keeps_entries_absent_from_reply env s regions k :
  fetched env (Some regions) ->
  Forall (fun q => ~ writes_key q k) regions ->
  JsMap.get k (regionMap (regionMapCache (after (getRegionMap cfg env s)))) =
  JsMap.get k (regionMap (regionMapCache s)).
Proof.
  intros Hfetch Hsilent.
  destruct (getRegionMap_cases cfg env s)
    as [[n ->] | [(regions' & _ & Hf & _ & ->) | (fb & _ & Hthrew & _ & _)]];
    cbn [after regionMapCache regionMap].
  - reflexivity.
  - pose proof (fetched_functional _ _ _ Hfetch Hf) as [= <-].
    now apply get_add_regions_silent.
  - destruct (fetched_not_threw _ _ Hfetch Hthrew).
Qed.

(** X3. [getRegionMap] never throws and answers the directory it leaves in
    the cache.  It calls [fetch] at most once, and it does so exactly when
    the directory has no entry, or its first-inserted key is the empty
    string, or the timestamp is more than 3600000 ms old; at exactly
    3600000 ms the cache still counts as fresh.  Without a fetch the state
    is unchanged. *)
Theorem getRegionMap_fetches_exactly_when_stale env s :
  let r := getRegionMap cfg env s in
  let cache := regionMapCache s in
  outcome r = Normal (regionMap (regionMapCache (after r))) /\
  (fetches r = 1%nat <->
   looks_empty (regionMap cache) \/
   regionMapUpdated cache + 3600000 < now_check env) /\
  (fetches r = 0%nat <->
   ~ looks_empty (regionMap cache) /\
   now_check env <= regionMapUpdated cache + 3600000) /\
  (fetches r = 0%nat -> after r = s).
Proof.
  cbv zeta. rewrite getRegionMap_returns. cbn [outcome fetches after].
  assert (needs_refresh (now_check env) (regionMapCache s) = true <->
          looks_empty (regionMap (regionMapCache s)) \/
          regionMapUpdated (regionMapCache s) + 3600000 < now_check env) as Hiff.
  { unfold needs_refresh. rewrite orb_true_iff, negb_true_iff, Z.ltb_lt.
    rewrite <- looks_empty_falsy. split; (intros [H|H]; [now left | right; lia]). }
  destruct (needs_refresh (now_check env) (regionMapCache s)) eqn:Hstale.
  - split; [reflexivity|]. split; [tauto|]. split; [|discriminate].
    split; [discriminate|]. intros [Hne Hfresh].
    destruct (proj1 Hiff eq_refl) as [H|H]; [contradiction | lia].
  - split; [reflexivity|]. split.
    + split; [discriminate|]. intros H. apply Hiff in H. discriminate.
    + split.
      * split; [|reflexivity]. intros _. split.
        -- intros H. assert (false = true) by (apply Hiff; now left). discriminate.
        -- destruct (Z.le_gt_cases (now_check env)
                       (regionMapUpdated (regionMapCache s) + 3600000)) as [H|H];
             [exact H|].
           assert (false = true) by (apply Hiff; right; lia). discriminate.
      * intros _. now rewrite getRegionMap_fresh.
Qed.

Lemma serve_keeps_well_keyed reqs s :
  well_keyed (regionMap (regionMapCache s)) ->
  well_keyed (regionMap (regionMapCache (serve cfg reqs s))).
Proof.
  revert s. induction reqs as [|[env request] reqs IH]; intros s Hs; [exact Hs|].
  cbn [serve]. apply IH. rewrite middleware_state.
  now apply getRegionMap_keeps_well_keyed.
Qed.

(** X4. In every state the process reaches from start-up, each key of the
    directory is mapped to a region that has a country stored under that
    key: the region lists the key as [iso_2], or, for the key [""], has a
    country without [iso_2]. *)
Theorem directory_entries_list_their_key t0 reqs k region :
  JsMap.get k (regionMap (regionMapCache (serve cfg reqs (init_state t0))))
  = Some region ->
  writes_key region k /\
  (k <> "" -> lists_code region k).
Proof.
  intros Hget.
  assert (writes_key region k) as Hw.
  { apply (serve_keeps_well_keyed reqs (init_state t0)); [|exact Hget].
    intros k' r' H. discriminate. }
  split; [exact Hw|]. intros Hne.
  destruct Hw as (cs & c & Hcs & Hin & Hkey). exists cs, c.
  split; [exact Hcs|]. split; [exact Hin|].
  unfold key_of_country in Hkey. destruct (iso_2 c); congruence.
Qed.

Lemma getRegionMap_keeps_fallback_before_entries env s :
  (regionMap (regionMapCache s) = [] \/ fallbackRegion s <> None) ->
  let s' := after (getRegionMap cfg env s) in
  regionMap (regionMapCache s') = [] \/ fallbackRegion s' <> None.
Proof.
  intros Hs. cbv zeta.
  destruct (getRegionMap_cases cfg env s)
    as [[n ->] | [(regions & Hne & _ & _ & ->) | (fb & _ & _ & _ & ->)]];
    cbn [after regionMapCache regionMap fallbackRegion].
  - exact Hs.
  - right. destruct (fallbackRegion s); [discriminate|].
    now apply choose_fallback_some.
  - right. discriminate.
Qed.

Lemma serve_keeps_fallback_before_entries reqs s :
  (regionMap (regionMapCache s) = [] \/ fallbackRegion s <> None) ->
  regionMap (regionMapCache (serve cfg reqs s)) = [] \/
  fallbackRegion (serve cfg reqs s) <> None.
Proof.
  revert s. induction reqs as [|[env request] reqs IH]; intros s Hs; [exact Hs|].
  cbn [serve]. apply IH. rewrite middleware_state.
  now apply getRegionMap_keeps_fallback_before_entries.
Qed.

(** X5. In every state the process reaches from start-up, a directory with
    at least one entry comes with a fallback region: the fallback region is
    set before the first entry is written. *)
Theorem entries_imply_fallback_region t0 reqs :
  let s := serve cfg reqs (init_state t0) in
  regionMap (regionMapCache s) <> [] ->
  exists fb, fallbackRegion s = Some fb.
Proof.
  cbv zeta. intros Hne.
  destruct (serve_keeps_fallback_before_entries reqs (init_state t0)) as [H|H].
  - left. reflexivity.
  - contradiction.
  - destruct (fallbackRegion _) as [fb|]; [now exists fb | congruence].
Qed.

(** X6. When the backend is unusable in any way (error status, thrown fetch,
    parse failure, no or empty region list) and the directory has a
    non-empty first key, the call leaves the whole state untouched and
    answers the cached directory: stale data is served as it is. *)
Theorem outage_keeps_cached_directory env s k0 :
  JsMap.first_key (regionMap (regionMapCache s)) = Some k0 -> k0 <> "" ->
  (forall regions, fetched env (Some regions) -> regions = []) ->
  let r := getRegionMap cfg env s in
  after r = s /\ outcome r = Normal (regionMap (regionMapCache s)).
Proof.
  intros Hk Hne Hout. cbv zeta.
  destruct (getRegionMap_cases cfg env s)
    as [[n ->] | [(regions & Hregions & Hf & _ & _) | (fb & _ & _ & Hkey & _)]].
  - split; reflexivity.
  - destruct (Hregions (Hout regions Hf)).
  - rewrite Hk in Hkey. cbn in Hkey.
    apply JsFacts.falsy_empty in Hkey. contradiction.
Qed.

(** X7. When the fetch throws while the directory looks empty to the code
    (no entry, or first key [""]) and a fallback region is set, the call
    returns normally after one fetch, keeps the fallback region, sets the
    timestamp to the clock, and maps every non-empty code the fallback
    region lists to the fallback region; every other key is as before.  On
    a directory without entries the result holds exactly those codes. *)
Theorem thrown_fetch_on_empty_directory_loads_fallback env s fb :
  looks_empty (regionMap (regionMapCache s)) ->
  fallbackRegion s = Some fb ->
  fetch_threw env ->
  let r := getRegionMap cfg env s in
  let directory := regionMap (regionMapCache (after r)) in
  outcome r = Normal directory /\
  fetches r = 1%nat /\
  fallbackRegion (after r) = Some fb /\
  regionMapUpdated (regionMapCache (after r)) = now_write env /\
  (forall k, lists_code fb k /\ k <> "" -> JsMap.get k directory = Some fb) /\
  (forall k, ~ (lists_code fb k /\ k <> "") ->
             JsMap.get k directory = JsMap.get k (regionMap (regionMapCache s))) /\
  (regionMap (regionMapCache s) = [] ->
   forall k, JsMap.has k directory = true <-> lists_code fb k /\ k <> "").
Proof.
  intros Hempty Hfb Hthrew. cbv zeta.
  apply looks_empty_falsy in Hempty.
  assert (needs_refresh (now_check env) (regionMapCache s) = true) as Hstale
    by (unfold needs_refresh; now rewrite Hempty).
  rewrite getRegionMap_threw by assumption. cbv zeta. rewrite Hfb, Hempty.
  cbn [after outcome fetches regionMapCache regionMap regionMapUpdated fallbackRegion].
  assert (forall k, lists_code fb k /\ k <> "" ->
            JsMap.get k (add_fallback fb (regionMap (regionMapCache s))) = Some fb)
    as Hin.
  { intros k H. rewrite get_add_fallback.
    apply lists_nonempty_codeb_spec in H. now rewrite H. }
  assert (forall k, ~ (lists_code fb k /\ k <> "") ->
            JsMap.get k (add_fallback fb (regionMap (regionMapCache s))) =
            JsMap.get k (regionMap (regionMapCache s))) as Hout.
  { intros k H. rewrite get_add_fallback.
    destruct (lists_nonempty_codeb fb k) eqn:E; [|reflexivity].
    apply lists_nonempty_codeb_spec in E. contradiction. }
  split; [reflexivity|]. split; [reflexivity|]. split; [reflexivity|].
  split; [reflexivity|]. split; [exact Hin|]. split; [exact Hout|].
  intros Hnil k. split.
  - intros Hhas. apply JsFacts.has_get in Hhas. destruct Hhas as [v Hv].
    rewrite get_add_fallback in Hv.
    destruct (lists_nonempty_codeb fb k) eqn:E.
    + now apply lists_nonempty_codeb_spec in E.
    + rewrite Hnil in Hv. discriminate.
  - intros H. apply JsFacts.has_get. exists fb. now apply Hin.
Qed.

End CacheExtras.

(** * Further properties of the router *)

Section RouterExtras.

Variable cfg : option string.

Lemma split_rooted rest :
  JsString.split "/" (String "/" rest) = "" :: JsString.split "/" rest.
Proof. reflexivity. Qed.

Lemma split_not_nil sep s : JsString.split sep s <> [].
Proof.
  destruct s as [|c s]; cbn; [discriminate|].
  destruct (Ascii.eqb c sep); [discriminate|].
  destruct (JsString.split sep s); discriminate.
Qed.

(** A path that starts with a slash has a first segment. *)
Lemma url_segment_rooted request rest :
  pathname (nextUrl request) = String "/" rest ->
  exists segment, url_segment request = Some segment.
Proof.
  intros Hpath. unfold url_segment. rewrite Hpath, split_rooted.
  pose proof (split_not_nil "/" rest) as Hne.
  destruct (JsString.split "/" rest) as [|h t]; [congruence|].
  now exists h.
Qed.

(** The first piece of [a ++ rest] is [a] when [a] has no slash and [rest]
    is empty or starts with one. *)
Lemma split_slash_free_prefix a rest :
  slash_free a = true ->
  rest = "" \/ (exists rest', rest = String "/" rest') ->
  exists t, JsString.split "/" (a ++ rest) = a :: t.
Proof.
  intros Ha Hrest. induction a as [|c a IH].
  - cbn [append]. destruct Hrest as [-> | [rest' ->]].
    + now exists [].
    + exists (JsString.split "/" rest'). apply split_rooted.
  - cbn [slash_free] in Ha. apply andb_true_iff in Ha. destruct Ha as [Hc Ha].
    destruct (IH Ha) as [t Ht]. exists t.
    cbn [append JsString.split]. apply negb_true_iff in Hc. now rewrite Hc, Ht.
Qed.

Lemma append_empty_right (s : string) : s ++ "" = s.
Proof. induction s as [|c s IH]; cbn; [reflexivity | now rewrite IH]. Qed.

Lemma includes_itself s : JsString.includes s s = true.
Proof.
  apply JsFacts.includes_substring. exists "", "".
  cbn [append]. now rewrite append_empty_right.
Qed.

(** A usable first segment settles the resolution. *)
Lemma getCountryCode_of_known_segment request directory segment :
  url_segment request = Some segment ->
  JsString.toLowerCase segment <> "" ->
  JsMap.has (JsString.toLowerCase segment) directory = true ->
  getCountryCode cfg request directory = JsString.toLowerCase segment.
Proof.
  intros Hseg Hne Hhas.
  unfold getCountryCode, getCountryCode_try. rewrite Hseg.
  cbn [option_map present_and_known].
  apply JsFacts.truthy_nonempty in Hne.
  rewrite Hne, Hhas. cbn [andb or_default_code]. now rewrite Hne.
Qed.

Lemma middleware_unfold env request s :
  middleware cfg env request s =
  let r := getRegionMap cfg env s in
  let countryCode :=
    getCountryCode cfg request (regionMap (regionMapCache (after r))) in
  mkRun (after r) (fetches r)
    (Normal
       match url_segment request with
       | Some segment =>
           if JsString.includes segment countryCode then next
           else redirect (region_url request countryCode) 307
       | None => redirect (region_url request (DEFAULT_REGION_CODE cfg)) 307
       end).
Proof.
  unfold middleware, try_catch. rewrite middleware_try_unfold. cbv zeta.
  destruct (url_segment request); [reflexivity|].
  unfold middleware_catch, ret. now rewrite Nat.add_0_r.
Qed.

Lemma known_segment_response env request s segment :
  url_segment request = Some segment ->
  JsString.toLowerCase segment <> "" ->
  JsMap.has (JsString.toLowerCase segment) (regionMap (regionMapCache s)) = true ->
  outcome (middleware cfg env request s) =
  Normal (if JsString.includes segment (JsString.toLowerCase segment) then next
          else redirect (region_url request (JsString.toLowerCase segment)) 307).
Proof.
  intros Hseg Hne Hhas.
  rewrite middleware_unfold. cbv zeta. cbn [outcome]. rewrite Hseg.
  rewrite (getCountryCode_of_known_segment request _ segment Hseg Hne
             (getRegionMap_keeps_keys cfg env s _ Hhas)).
  reflexivity.
Qed.

(** X8. A request whose first path segment, lower-cased, is a non-empty key
    of the directory is resolved to that key, whatever the geolocation
    header says and whatever the backend answers during the call.  It is
    passed through when the segment contains its own lower-case form, in
    particular when it is written in lower case; a segment in other
    letter case (for instance US for the key us) is redirected to the
    lower-case region with the old path appended. *)
Theorem known_prefix_decides env request s segment :
  url_segment request = Some segment ->
  JsString.toLowerCase segment <> "" ->
  JsMap.has (JsString.toLowerCase segment) (regionMap (regionMapCache s)) = true ->
  let code := JsString.toLowerCase segment in
  (JsString.includes segment code = true ->
   outcome (middleware cfg env request s) = Normal next) /\
  (JsString.includes segment code = false ->
   outcome (middleware cfg env request s) =
   Normal (redirect (region_url request code) 307)) /\
  (code = segment -> outcome (middleware cfg env request s) = Normal next).
Proof.
  intros Hseg Hne Hhas code.
  pose proof (known_segment_response env request s segment Hseg Hne Hhas) as H.
  fold code in H. split; [|split].
  - intros Hinc. now rewrite H, Hinc.
  - intros Hinc. now rewrite H, Hinc.
  - intros Heq. rewrite H, Heq, includes_itself. reflexivity.
Qed.

(** X9. No second redirect.  Take a request with a path that starts with a
    slash and let [code] be the country code resolved for it.  When [code]
    is a key of the directory, is in lower case and has no slash, a
    follow-up request for the redirect target, that is for the path [/code]
    followed by the old path (nothing for the root path), is passed
    through, whatever its headers are and whatever the backend answers in
    between. *)
Theorem redirect_target_is_passed_through env env' request follow s rest :
  pathname (nextUrl request) = String "/" rest ->
  let s1 := after (middleware cfg env request s) in
  let code := getCountryCode cfg request (regionMap (regionMapCache s1)) in
  JsMap.has code (regionMap (regionMapCache s1)) = true ->
  JsString.toLowerCase code = code ->
  slash_free code = true ->
  pathname (nextUrl follow) =
    "/" ++ code ++ (if String.eqb (pathname (nextUrl request)) "/" then ""
                    else pathname (nextUrl request)) ->
  outcome (middleware cfg env' follow s1) = Normal next.
Proof.
  intros Hpath s1 code Hhas Hlower Hslash Hfollow.
  assert (url_segment follow = Some code) as Hseg.
  { unfold url_segment. rewrite Hfollow.
    change ("/" ++ code ++ ?x) with (String "/" (code ++ x)).
    rewrite split_rooted.
    destruct (split_slash_free_prefix code
                (if String.eqb (pathname (nextUrl request)) "/" then ""
                 else pathname (nextUrl request)) Hslash) as [t ->];
      [|reflexivity].
    destruct (String.eqb (pathname (nextUrl request)) "/");
      [now left | right; now exists rest]. }
  assert (JsString.toLowerCase code <> "") as Hne.
  { rewrite Hlower. apply JsFacts.truthy_nonempty, getCountryCode_truthy. }
  rewrite Hlower in Hne.
  rewrite (known_segment_response env' follow s1 code Hseg);
    rewrite ?Hlower; auto.
  now rewrite includes_itself.
Qed.

(** X10. Every answer of [middleware] is either the pass-through or a
    redirect with status 307 to [origin/code] followed by the path and the
    query, where [code] is not empty and is the resolved country code, or
    the default region code when the path has no first segment.  One
    request causes at most one fetch, and the state after it is the one
    [getRegionMap] leaves. *)
Theorem middleware_response_shape env request s :
  let r := middleware cfg env request s in
  let cached := getRegionMap cfg env s in
  let code := getCountryCode cfg request (regionMap (regionMapCache (after cached))) in
  after r = after cached /\
  fetches r = fetches cached /\
  (fetches r <= 1)%nat /\
  code <> "" /\ DEFAULT_REGION_CODE cfg <> "" /\
  (outcome r = Normal next \/
   outcome r = Normal (redirect (region_url request code) 307) \/
   (url_segment request = None /\
    outcome r = Normal (redirect (region_url request (DEFAULT_REGION_CODE cfg)) 307))).
Proof.
  cbv zeta. rewrite middleware_unfold. cbv zeta. cbn [after fetches outcome].
  split; [reflexivity|]. split; [reflexivity|]. split.
  { rewrite getRegionMap_returns. cbn [fetches].
    destruct (needs_refresh _ _); auto. }
  split; [apply JsFacts.truthy_nonempty, getCountryCode_truthy|].
  split; [apply JsFacts.truthy_nonempty, DEFAULT_REGION_CODE_truthy|].
  destruct (url_segment request) as [segment|].
  - destruct (JsString.includes segment _); auto.
  - right; right. auto.
Qed.

(** X11. For a request whose path starts with a slash, as the paths of
    parsed URLs do, the [try] block of [middleware] completes normally: the
    [catch] block is not entered, and the answer is the pass-through or the
    redirect to the resolved country code. *)
Theorem rooted_path_never_reaches_catch env request s rest :
  pathname (nextUrl request) = String "/" rest ->
  exists response,
    outcome (middleware_try cfg env request s) = Normal response /\
    outcome (middleware cfg env request s) = Normal response /\
    (response = next \/
     response =
     redirect (region_url request
                 (getCountryCode cfg request
                    (regionMap (regionMapCache (after (getRegionMap cfg env s))))))
              307).
Proof.
  intros Hpath. destruct (url_segment_rooted request rest Hpath) as [segment Hseg].
  rewrite middleware_unfold, middleware_try_unfold. cbv zeta. cbn [outcome].
  rewrite Hseg. eexists. split; [reflexivity|]. split; [reflexivity|].
  destruct (JsString.includes segment _); auto.
Qed.

(** X12. Cold start with the backend down.  With no entry in the directory
    and no fallback region, a call during which the backend gives no usable
    region list (error status, thrown fetch, parse failure, no or empty
    list) leaves the state as it is after one fetch, and every request is
    resolved to the default region code: it is passed through when its
    first segment contains that code and redirected to the default region
    otherwise. *)
Theorem outage_at_cold_start_routes_to_default env request s :
  regionMap (regionMapCache s) = [] ->
  fallbackRegion s = None ->
  (forall regions, fetched env (Some regions) -> regions = []) ->
  middleware cfg env request s =
  mkRun s 1%nat
    (Normal
       match url_segment request with
       | Some segment =>
           if JsString.includes segment (DEFAULT_REGION_CODE cfg) then next
           else redirect (region_url request (DEFAULT_REGION_CODE cfg)) 307
       | None => redirect (region_url request (DEFAULT_REGION_CODE cfg)) 307
       end).
Proof.
  intros Hnil Hfb Hout.
  assert (getRegionMap cfg env s = mkRun s 1%nat (Normal [])) as Hr.
  { pose proof (getRegionMap_returns cfg env s) as Hret.
    assert (needs_refresh (now_check env) (regionMapCache s) = true) as Hstale
      by (unfold needs_refresh; now rewrite Hnil).
    rewrite Hstale in Hret.
    destruct (getRegionMap_cases cfg env s)
      as [[n H] | [(regions & Hne & Hf & _ & _) | (fb & Hfb' & _)]].
    - rewrite H in Hret. injection Hret as ->. now rewrite H, Hnil.
    - destruct (Hne (Hout regions Hf)).
    - congruence. }
  rewrite middleware_unfold. cbv zeta. rewrite Hr. cbn [after fetches].
  rewrite Hnil.
  assert (getCountryCode cfg request [] = DEFAULT_REGION_CODE cfg) as ->.
  { unfold getCountryCode, getCountryCode_try.
    assert (forall x, present_and_known x [] = false) as Hno
      by (intros [k|]; [cbn; now rewrite andb_false_r | reflexivity]).
    now rewrite !Hno. }
  reflexivity.
Qed.

(** X13. The country code [getCountryCode] answers is a key of the
    directory or the default region code; on a directory without entries it
    is the default region code, whatever the URL and the header say. *)
Theorem resolved_code_is_known_or_default request directory :
  let code := getCountryCode cfg request directory in
  (JsMap.has code directory = true \/ code = DEFAULT_REGION_CODE cfg) /\
  (directory = [] -> code = DEFAULT_REGION_CODE cfg).
Proof.
  cbv zeta. unfold getCountryCode, getCountryCode_try.
  set (seg := option_map JsString.toLowerCase (url_segment request)).
  set (hdr := option_map JsString.toLowerCase
                (headers_get request "x-vercel-ip-country")).
  assert (forall x, present_and_known x directory = true ->
            exists k, x = Some k /\ JsString.truthy k = true /\
                      JsMap.has k directory = true) as Hpk.
  { intros [k|] H; [|discriminate]. cbn in H. apply andb_true_iff in H.
    exists k. tauto. }
  split.
  - destruct (present_and_known seg directory) eqn:E1.
    { destruct (Hpk _ E1) as (k & -> & Ht & Hh). cbn. rewrite Ht. now left. }
    destruct (present_and_known hdr directory) eqn:E2.
    { destruct (Hpk _ E2) as (k & -> & Ht & Hh). cbn. rewrite Ht. now left. }
    destruct (JsMap.has (DEFAULT_REGION cfg) directory) eqn:E3.
    { right. cbn. rewrite DEFAULT_REGION_same, DEFAULT_REGION_CODE_truthy.
      reflexivity. }
    destruct (JsMap.first_key directory) as [k|] eqn:E4; cbn; [|now right].
    destruct (JsString.truthy k) eqn:E5; cbn; [|now right].
    rewrite E5. left. apply JsFacts.has_keys.
    destruct directory as [|[k0 v0] d]; [discriminate|].
    cbn in E4. injection E4 as ->. now left.
  - intros ->.
    assert (forall x, present_and_known x [] = false) as Hno
      by (intros [k|]; [cbn; now rewrite andb_false_r | reflexivity]).
    now rewrite !Hno.
Qed.

End RouterExtras.

(** * The health route *)

Lemma is_set_spec env name :
  is_set env name = true <-> exists v, JsMap.get name env = Some v /\ v <> "".
Proof.
  unfold is_set. destruct (JsMap.get name env) as [v|]; cbn.
  - rewrite JsFacts.truthy_nonempty. split.
    + intros Hne. now exists v.
    + intros (v' & [= <-] & Hne). exact Hne.
  - split; [discriminate | intros (v & H & _); discriminate].
Qed.

Lemma all_present_spec env :
  forallb (fun present => present) (map snd (envCheck env)) = true <->
  forall name, In name health_variables -> is_set env name = true.
Proof.
  cbn [envCheck map snd forallb]. rewrite !andb_true_iff. split.
  - intros (H1 & H2 & H3 & H4 & H5 & _) name
           [<- | [<- | [<- | [<- | [<- | []]]]]]; assumption.
  - intros H. repeat split; apply H; cbn; auto 10.
Qed.

(** X14. The health route answers HTTP 200 in every case.  The body says
    healthy exactly when each of the five variables is set to a non-empty
    string, and unhealthy otherwise: a variable set to the empty string
    counts as missing.  [envVars] has one entry per variable, in the order
    of the source, saying whether it is set.  When the body says healthy,
    the default region code of the middleware is the configured value, not
    the built-in us. *)
Theorem health_reports_healthy_iff_all_set env isoNow :
  let response := GET env isoNow in
  let all_set :=
    forall name, In name health_variables ->
                 exists v, JsMap.get name env = Some v /\ v <> "" in
  http_status response = 200 /\
  (status (body response) = "healthy" <-> all_set) /\
  (status (body response) = "unhealthy" <-> ~ all_set) /\
  map fst (envVars (body response)) = health_variables /\
  (forall name present,
     In (name, present) (envVars (body response)) ->
     (present = true <-> exists v, JsMap.get name env = Some v /\ v <> "")) /\
  (status (body response) = "healthy" ->
   JsMap.get "NEXT_PUBLIC_DEFAULT_REGION" env =
     Some (DEFAULT_REGION_CODE (JsMap.get "NEXT_PUBLIC_DEFAULT_REGION" env))).
Proof.
  cbv zeta.
  assert ((forall name, In name health_variables ->
                        exists v, JsMap.get name env = Some v /\ v <> "") <->
          forallb (fun present => present) (map snd (envCheck env)) = true)
    as Hall.
  { rewrite all_present_spec. split; intros H name Hin.
    - apply is_set_spec. now apply H.
    - apply is_set_spec. now apply H. }
  unfold GET. cbv zeta. cbn [http_status body status envVars].
  split; [reflexivity|].
  destruct (forallb (fun present => present) (map snd (envCheck env))) eqn:E.
  - split; [split; [intros _; now apply Hall | reflexivity]|].
    split; [split; [discriminate | intros H; destruct H; now apply Hall]|].
    split; [reflexivity|]. split.
    + intros name present Hin. cbn [envCheck In] in Hin.
      destruct Hin as [H | [H | [H | [H | [H | []]]]]];
        injection H as <- <-; apply is_set_spec.
    + intros _.
      destruct (proj2 Hall eq_refl "NEXT_PUBLIC_DEFAULT_REGION") as (v & Hv & Hne);
        [cbn; auto 10|].
      rewrite Hv. unfold DEFAULT_REGION_CODE.
      apply JsFacts.truthy_nonempty in Hne. now rewrite Hne.
  - split; [split; [discriminate | intros H; apply Hall in H; discriminate]|].
    split; [split; [intros _ H; apply Hall in H; discriminate | reflexivity]|].
    split; [reflexivity|]. split; [|discriminate].
    intros name present Hin. cbn [envCheck In] in Hin.
    destruct Hin as [H | [H | [H | [H | [H | []]]]]];
      injection H as <- <-; apply is_set_spec.
Qed.

(** * Instances of the further properties *)

(** X1 for the key de, a stale cache and a backend that now serves North
    America only. *)
Lemma directory_never_loses_a_key_witness :
  JsMap.has "de"
    (regionMap (regionMapCache
       (serve None
          [(mkEnv 4000000 (reply_regions [region_na]) 4000100,
            request_to "/cart" "" [])]
          state_eu)))
  = true.
Proof.
  exact (proj2 (directory_never_loses_a_key None "de" state_eu eq_refl)
           [(mkEnv 4000000 (reply_regions [region_na]) 4000100,
             request_to "/cart" "" [])]).
Defined.

(** X2 for the same refresh: de keeps the European region. *)
Lemma refresh_keeps_entries_absent_from_reply_witness :
  JsMap.get "de"
    (regionMap (regionMapCache
       (after (getRegionMap None (mkEnv 4000000 (reply_regions [region_na]) 4000100)
                 state_eu))))
  = Some region_eu.
Proof.
  refine (refresh_keeps_entries_absent_from_reply None
            (mkEnv 4000000 (reply_regions [region_na]) 4000100)
            state_eu [region_na] "de" _ _).
  - eexists. repeat split.
  - constructor; [|constructor].
    intros (cs & c & Hcs & Hin & Hkey). injection Hcs as <-.
    destruct Hin as [<- | [<- | []]]; discriminate.
Defined.

(** X3 at the boundary: exactly 3600000 ms after the update there is no
    fetch. *)
Lemma getRegionMap_fetches_exactly_when_stale_witness :
  fetches (getRegionMap None (mkEnv 3601100 reply_unavailable 3601200) state_eu)
  = 0%nat.
Proof.
  refine (proj2 (proj1 (proj2 (proj2
            (getRegionMap_fetches_exactly_when_stale None
               (mkEnv 3601100 reply_unavailable 3601200) state_eu)))) _).
  split.
  - intros [H | H]; discriminate.
  - vm_compute. discriminate.
Defined.

(** X4 after a first request answered with two regions that list fr. *)
Lemma directory_entries_list_their_key_witness : lists_code region_b "fr".
Proof.
  refine (proj2 (directory_entries_list_their_key None 0
                   [(mkEnv 1000 (reply_regions [region_eu; region_b]) 1100,
                     request_to "/cart" "" [])]
                   "fr" region_b eq_refl) _).
  discriminate.
Defined.

(** X5 after the same first request. *)
Lemma entries_imply_fallback_region_witness :
  exists fb,
    fallbackRegion
      (serve None
         [(mkEnv 1000 (reply_regions [region_eu; region_b]) 1100,
           request_to "/cart" "" [])]
         (init_state 0))
    = Some fb.
Proof.
  refine (entries_imply_fallback_region None 0
            [(mkEnv 1000 (reply_regions [region_eu; region_b]) 1100,
              request_to "/cart" "" [])] _).
  vm_compute. discriminate.
Defined.

(** X6 for a stale warm cache and a backend that is down. *)
Lemma outage_keeps_cached_directory_witness :
  after (getRegionMap None (env_down 4000000) state_eu) = state_eu.
Proof.
  refine (proj1 (outage_keeps_cached_directory None (env_down 4000000)
                   state_eu "de" eq_refl _ _)).
  - discriminate.
  - intros regions (response & H & _). discriminate.
Defined.

(** X7 for a directory without entries and the European region as
    fallback. *)
Lemma thrown_fetch_on_empty_directory_loads_fallback_witness :
  JsMap.get "de"
    (regionMap (regionMapCache
       (after (getRegionMap None (env_down 1000)
                 (mkState (mkCache [] 0) (Some region_eu))))))
  = Some region_eu.
Proof.
  refine (proj1 (proj2 (proj2 (proj2 (proj2
            (thrown_fetch_on_empty_directory_loads_fallback None (env_down 1000)
               (mkState (mkCache [] 0) (Some region_eu)) region_eu _ eq_refl _)))))
            "de" _).
  - left. reflexivity.
  - left. eexists. reflexivity.
  - split; [|discriminate].
    exists [country "de"; country "fr"], (country "de").
    split; [reflexivity|]. split; [left; reflexivity | reflexivity].
Defined.

(** X8 for the path [/US/cart] and the key us. *)
Lemma known_prefix_decides_witness :
  outcome (middleware None (env_down 4000000)
             (request_to "/US/cart" "" [("x-vercel-ip-country", "CA")]) state_na)
  = Normal (redirect "https://shop.example/us/US/cart" 307).
Proof.
  refine (proj1 (proj2 (known_prefix_decides None (env_down 4000000)
                          (request_to "/US/cart" "" [("x-vercel-ip-country", "CA")])
                          state_na "US" eq_refl _ eq_refl)) eq_refl).
  discriminate.
Defined.

(** X9: [/cart] is redirected to [/us/cart], which is passed through even
    when the follow-up request carries another geolocation. *)
Lemma redirect_target_is_passed_through_witness :
  outcome (middleware None (env_down 5000000)
             (request_to "/us/cart" "" [("x-vercel-ip-country", "CA")])
             (after (middleware None (env_down 4000000)
                       (request_to "/cart" "" []) state_na)))
  = Normal next.
Proof.
  exact (redirect_target_is_passed_through None (env_down 4000000) (env_down 5000000)
           (request_to "/cart" "" [])
           (request_to "/us/cart" "" [("x-vercel-ip-country", "CA")])
           state_na "cart" eq_refl eq_refl eq_refl eq_refl eq_refl).
Defined.

(** X10 for a first request after start-up. *)
Lemma middleware_response_shape_witness :
  (fetches (middleware None (mkEnv 1000 (reply_regions [region_eu]) 1100)
              (request_to "/cart" "" []) (init_state 0)) <= 1)%nat.
Proof.
  exact (proj1 (proj2 (proj2
           (middleware_response_shape None
              (mkEnv 1000 (reply_regions [region_eu]) 1100)
              (request_to "/cart" "" []) (init_state 0))))).
Defined.

(** X11 for the path [/cart]. *)
Lemma rooted_path_never_reaches_catch_witness :
  exists response,
    outcome (middleware_try None (env_down 4000000)
               (request_to "/cart" "" []) state_na) = Normal response.
Proof.
  destruct (rooted_path_never_reaches_catch None (env_down 4000000)
              (request_to "/cart" "" []) state_na "cart" eq_refl)
    as (response & Htry & _).
  exists response. exact Htry.
Defined.

(** X12 for the first request after start-up with the backend down. *)
Lemma outage_at_cold_start_routes_to_default_witness :
  middleware None (env_down 1000) (request_to "/cart" "?a=b" []) (init_state 0)
  = mkRun (init_state 0) 1%nat
      (Normal (redirect "https://shop.example/us/cart?a=b" 307)).
Proof.
  refine (outage_at_cold_start_routes_to_default None (env_down 1000)
            (request_to "/cart" "?a=b" []) (init_state 0) eq_refl eq_refl _).
  intros regions (response & H & _). discriminate.
Defined.

(** X13 on a directory without entries: a region prefix and a geolocation
    header do not count. *)
Lemma resolved_code_is_known_or_default_witness :
  getCountryCode None (request_to "/de/cart" "" [("x-vercel-ip-country", "FR")]) []
  = "us".
Proof.
  exact (proj2 (resolved_code_is_known_or_default None
                  (request_to "/de/cart" "" [("x-vercel-ip-country", "FR")]) [])
           eq_refl).
Defined.

(** X14 for a complete environment. *)
Lemma health_reports_healthy_iff_all_set_witness :
  status (body (GET env_complete "2026-01-01T00:00:00.000Z")) = "healthy".
Proof.
  refine (proj2 (proj1 (proj2
            (health_reports_healthy_iff_all_set env_complete
               "2026-01-01T00:00:00.000Z"))) _).
  intros name [<- | [<- | [<- | [<- | [<- | []]]]]];
    eexists; (split; [reflexivity | discriminate]).
Defined.

(** One variable set to the empty string. *)
Example health_with_empty_variable :
  GET [("NEXT_PUBLIC_MEDUSA_BACKEND_URL", "https://backend.example");
       ("NEXT_PUBLIC_MEDUSA_PUBLISHABLE_KEY", "pk_1");
       ("NEXT_PUBLIC_BASE_URL", "https://shop.example");
       ("NEXT_PUBLIC_DEFAULT_REGION", "");
       ("NEXT_PUBLIC_STRIPE_KEY", "pk_2")]
      "2026-01-01T00:00:00.000Z"
  = mkJsonResponse 200
      (mkHealthBody "unhealthy" None
         [("NEXT_PUBLIC_MEDUSA_BACKEND_URL", true);
          ("NEXT_PUBLIC_MEDUSA_PUBLISHABLE_KEY", true);
          ("NEXT_PUBLIC_BASE_URL", true);
          ("NEXT_PUBLIC_DEFAULT_REGION", false);
          ("NEXT_PUBLIC_STRIPE_KEY", true)]
         "2026-01-01T00:00:00.000Z").
Proof. reflexivity. Qed.

(** X16: after a reply whose first country record has no [iso_2], three
    calls within four seconds fetch three times. *)
Lemma empty_first_key_refetches_forever_witness :
  snd (getRegionMap_calls None
         [mkEnv 2000 (reply_regions [region_a]) 2100;
          mkEnv 3000 (reply_regions [region_a]) 3100;
          mkEnv 4000 (reply_regions [region_a]) 4100]
         (after (getRegionMap None (mkEnv 1000 (reply_regions [region_a]) 1100)
                   (init_state 0))))
  = 3%nat.
Proof.
  exact (empty_first_key_refetches_forever None
           [mkEnv 2000 (reply_regions [region_a]) 2100;
            mkEnv 3000 (reply_regions [region_a]) 3100;
            mkEnv 4000 (reply_regions [region_a]) 4100]
           (after (getRegionMap None (mkEnv 1000 (reply_regions [region_a]) 1100)
                     (init_state 0)))
           eq_refl).
Defined.

(** * How the cache gets an empty first key *)

Section EmptyFirstKey.

Variable cfg : option string.

Lemma first_key_inner_loop (region : StoreRegion) cs (m : RegionMap) k0 :
  JsMap.first_key m = Some k0 ->
  JsMap.first_key
    (fold_left (fun m c => JsMap.set (key_of_country c) region m) cs m) = Some k0.
Proof.
  revert m. induction cs as [|c cs IH]; intros m Hk; [exact Hk|].
  cbn [fold_left]. apply IH. rewrite JsFacts.first_key_set. now rewrite Hk.
Qed.

(** X17. When the directory has no entry and the first country record of
    the first fetched region has no [iso_2], the refresh makes the empty
    string the first-inserted key; from then on the next call fetches
    again, however soon it comes. *)
Theorem first_country_without_code_makes_cache_stale env s region regions c cs :
  regionMap (regionMapCache s) = [] ->
  fetched env (Some (region :: regions)) ->
  countries region = Some (c :: cs) ->
  iso_2 c = None ->
  let s1 := after (getRegionMap cfg env s) in
  JsMap.first_key (regionMap (regionMapCache s1)) = Some "" /\
  forall env', fetches (getRegionMap cfg env' s1) = 1%nat.
Proof.
  intros Hnil Hfetch Hcs Hiso s1.
  assert (needs_refresh (now_check env) (regionMapCache s) = true) as Hstale
    by (unfold needs_refresh; now rewrite Hnil).
  assert (JsMap.first_key (regionMap (regionMapCache s1)) = Some "") as Hfirst.
  { unfold s1.
    rewrite (getRegionMap_refreshed cfg env s (region :: regions))
      by (auto; discriminate).
    cbv zeta. cbn [after regionMapCache regionMap]. rewrite Hnil.
    unfold add_regions. cbn [fold_left].
    fold (add_regions regions (add_region [] region)).
    apply first_key_add_regions.
    unfold add_region. rewrite Hcs. cbn [fold_left].
    apply first_key_inner_loop.
    unfold key_of_country. now rewrite Hiso. }
  split; [exact Hfirst|].
  intros env'. rewrite getRegionMap_returns. cbn [fetches].
  unfold needs_refresh. now rewrite Hfirst.
Qed.

End EmptyFirstKey.

(** X17 for the sample region A. *)
Lemma first_country_without_code_makes_cache_stale_witness :
  fetches
    (getRegionMap None (mkEnv 1200 reply_unavailable 1300)
       (after (getRegionMap None (mkEnv 1000 (reply_regions [region_a]) 1100)
                 (init_state 0))))
  = 1%nat.
Proof.
  refine (proj2 (first_country_without_code_makes_cache_stale None
                   (mkEnv 1000 (reply_regions [region_a]) 1100) (init_state 0)
                   region_a [] country_without_code [country "fr"]
                   eq_refl _ eq_refl eq_refl)
            (mkEnv 1200 reply_unavailable 1300)).
  eexists. repeat split.
Defined.
